(** * notion-api-worker: the page route ([src/routes/page.ts])

    A shallow embedding of [limitedApiCall] and [pageRoute], and the
    properties of the call budget, the block-graph expansion, the
    collection resolver and the error classifier.

    The three remote collaborators ([fetchPageById], [fetchBlocks],
    [getTableData]) and [parsePageId] live in other modules; they are
    taken as a record of functions over an abstract world.  Promises are
    awaited strictly one after the other, so an asynchronous function is
    a state transformer that either returns a value or throws. *)

From Stdlib Require Import ZArith List String Ascii Bool Lia DecimalString.
Import ListNotations.
Open Scope string_scope.
Open Scope Z_scope.
Open Scope list_scope.

Set Implicit Arguments.

(* ================================================================== *)
(** ** Strings *)

(** [haystack.includes(needle)]. *)
Fixpoint includes (needle haystack : string) : bool :=
  prefix needle haystack ||
  match haystack with
  | EmptyString => false
  | String _ rest => includes needle rest
  end.

(** Template-literal rendering of an integer, [`${n}`]. *)
Definition show_int (n : Z) : string := NilZero.string_of_int (Z.to_int n).

(* ================================================================== *)
(** ** Plain JavaScript objects used as string-keyed maps

    An object is represented by its own enumerable properties, listed in
    the order [Object.keys] and the spread operator enumerate them:
    array-index keys first, by ascending numeric value, then every other
    key in insertion order. *)

Definition Obj (A : Type) : Type := list (string * A).

Definition is_digit (c : ascii) : bool :=
  let n := N_of_ascii c in ((48 <=? n) && (n <=? 57))%N.

Fixpoint digits_value (s : string) (acc : N) : option N :=
  match s with
  | EmptyString => Some acc
  | String c rest =>
      if is_digit c
      then digits_value rest (10 * acc + (N_of_ascii c - 48))%N
      else None
  end.

(** [array_index k] is [Some n] when [k] is the canonical decimal
    spelling of an integer [n] with [0 <= n < 2^32 - 1]. *)
Definition array_index (k : string) : option N :=
  match k with
  | EmptyString => None
  | String c rest =>
      if (Ascii.eqb c "0" && negb (String.eqb rest ""))%bool then None
      else match digits_value k 0%N with
           | Some n => if (n <? 4294967295)%N then Some n else None
           | None => None
           end
  end.

Section Objects.
Variable A : Type.

(** [Object.keys(o)]. *)
Definition keys (o : Obj A) : list string := map fst o.

(** The own property [o[k]], if there is one. *)
Fixpoint lookup (o : Obj A) (k : string) : option A :=
  match o with
  | [] => None
  | (k', v) :: rest => if String.eqb k' k then Some v else lookup rest k
  end.

Definition has (o : Obj A) (k : string) : bool :=
  match lookup o k with Some _ => true | None => false end.

(** Overwriting an existing property keeps its place in the order. *)
Fixpoint replace (o : Obj A) (k : string) (v : A) : Obj A :=
  match o with
  | [] => []
  | (k', v') :: rest =>
      if String.eqb k' k then (k', v) :: rest
      else (k', v') :: replace rest k v
  end.

(** A new array-index key goes among the index keys, in numeric order. *)
Fixpoint insert_index (n : N) (k : string) (v : A) (o : Obj A) : Obj A :=
  match o with
  | [] => [(k, v)]
  | (k', v') :: rest =>
      match array_index k' with
      | Some n' =>
          if (n <? n')%N then (k, v) :: o
          else (k', v') :: insert_index n k v rest
      | None => (k, v) :: o
      end
  end.

(** [o[k] = v] on a data property, also the step of a spread. *)
Definition set (o : Obj A) (k : string) (v : A) : Obj A :=
  if has o k then replace o k v
  else match array_index k with
       | Some n => insert_index n k v o
       | None => o ++ [(k, v)]
       end.

(** [{ ...target, ...source }] copies the properties of [source] onto
    [target] one by one: for each key of [source], in enumeration
    order, the value read from [source] is stored under that key. *)
Definition assign (target source : Obj A) : Obj A :=
  fold_left (fun t k => match lookup source k with
                        | Some v => set t k v
                        | None => t
                        end)
            (keys source) target.

(** [{ ...a }]. *)
Definition spread (a : Obj A) : Obj A := assign [] a.

(** [{ ...a, ...b }]. *)
Definition spread2 (a b : Obj A) : Obj A := assign (spread a) b.

(** The first property value in enumeration order,
    [o[Object.keys(o)[0]]]. *)
Definition first_value (o : Obj A) : option A :=
  match keys o with
  | [] => None
  | k :: _ => lookup o k
  end.
End Objects.

(** Names every object inherits from [Object.prototype]: reading one of
    them from an object that has no own property of that name yields a
    function (or the prototype itself), which is truthy. *)
Definition inherited_names : list string :=
  [ "constructor"; "hasOwnProperty"; "isPrototypeOf";
    "propertyIsEnumerable"; "toLocaleString"; "toString"; "valueOf";
    "__proto__"; "__defineGetter__"; "__defineSetter__";
    "__lookupGetter__"; "__lookupSetter__" ].

Definition inherited (k : string) : bool :=
  existsb (String.eqb k) inherited_names.

(** Truthiness of [o[k]] when the own values of [o] are objects. *)
Definition truthy_at {A} (o : Obj A) (k : string) : bool :=
  has o k || inherited k.

(* ================================================================== *)
(** ** Data model

    The record types of [../api/types] as far as [pageRoute] reads them;
    every field the route only passes along is kept as an opaque payload. *)

#[local] Unset Elimination Schemes.
Inductive Json : Type :=
| JNull
| JBool (b : bool)
| JNum (n : Z)
| JStr (s : string)
| JArr (items : list Json)
| JObj (props : list (string * Json)).
#[local] Set Elimination Schemes.

(** [block.value]: [content] and [view_ids] may be missing. *)
Record BlockValue : Type := {
  id : string;
  type : string;
  content : option (list string);
  view_ids : option (list string);
  value_rest : Json
}.

Record CollectionViewValue : Type := { view_id : string; view_rest : Json }.
Record CollectionView : Type := { view_value : CollectionViewValue }.

Record CollectionValue : Type := { name : Json; collection_rest : Json }.
Record CollectionType : Type := { collection_value : CollectionValue }.

(** The object stored under [collection] by the resolver; an entry of
    [types] is [None] where the source stores [undefined]. *)
Record Annotation : Type := {
  title : Json;
  schema : Json;
  types : list (option CollectionViewValue);
  data : Json
}.

(** [BlockType & { collection?: any }]. *)
Record Block : Type := {
  value : option BlockValue;
  collection : option Annotation;
  block_rest : Json
}.

Definition Graph : Type := Obj Block.

Record RecordMap : Type := {
  block : Graph;
  rm_collection : option (Obj CollectionType);
  rm_collection_view : option (Obj CollectionView)
}.

Record PageChunk : Type := { recordMap : RecordMap }.

Record TableData : Type := { rows : Json; table_schema : Json }.

Definition Token : Type := option string.

Record HandlerRequest : Type := {
  params_pageId : string;
  notionToken : Token
}.

(** What [createResponse] is given: the payload, the headers and the
    status code, the last two only on the error path. *)
Inductive Payload : Type :=
| GraphPayload (allBlocks : Graph)
| ErrorPayload (error : string).

Record Response : Type := createResponse {
  payload : Payload;
  headers : option (Obj string);
  statusCode : option Z
}.

(** A thrown [Error] object. *)
Record JsError : Type := Error { message : string }.

(** Messages of the [TypeError]s the engine raises on a read from
    [undefined] (V8 wording). *)
Definition TypeError_keys : JsError :=
  Error "Cannot convert undefined or null to object".
Definition TypeError_read (prop : string) : JsError :=
  Error ("Cannot read properties of undefined (reading '" ++ prop ++ "')")%string.

Inductive Outcome (A : Type) : Type :=
| Returned (a : A)
| Thrown (e : JsError).
Arguments Thrown {A} e.

(** Calls that reach a collaborator, with their arguments. *)
Inductive Call : Type :=
| CallFetchPageById (pageId : option string) (token : Token)
| CallFetchBlocks (ids : list string) (token : Token)
| CallGetTableData (coll : CollectionType) (viewId : string)
                   (token : Token) (flag : bool).

(** Observable steps of a run, oldest first: stores to the module
    variable [apiCallCount], collaborator calls and console output. *)
Inductive Event : Type :=
| CounterWrite (v : Z)
| Invoked (c : Call)
| ConsoleLog (text : string)
| ConsoleError (text : string) (e : JsError).

(** Source constants. *)
Definition MAX_API_CALLS : Z := 45.
Definition MAX_ITERATIONS : Z := 2.
Definition MAX_BLOCKS_PER_ITERATION : nat := 20.

(* ================================================================== *)
(** ** The expansion candidates (pure part of the loop body) *)

(** The [flatMap] callback of lines 50-63 for the property [blockId]
    holding [block]. *)
Definition candidates (pageId : option string) (allBlocks : Graph)
    (blockId : string) (block : Block) : list string :=
  match value block with
  | None => []
  | Some v =>
      match content v with
      | None => []
      | Some ids =>
          if (String.eqb (type v) "page" &&
              negb (match pageId with
                    | Some p => String.eqb blockId p
                    | None => false
                    end))%bool
          then []
          else filter (fun id => negb (truthy_at allBlocks id)) ids
      end
  end.

(** Lines 44-64.  [allBlocks[blockId]] is an own property for every
    [blockId] of [Object.keys(allBlocks)]. *)
Definition pendingBlocks (pageId : option string) (allBlocks : Graph)
    : list string :=
  let allBlockKeys := keys allBlocks in
  firstn MAX_BLOCKS_PER_ITERATION
    (flat_map (fun blockId =>
                 match lookup allBlocks blockId with
                 | Some block => candidates pageId allBlocks blockId block
                 | None => []
                 end)
              allBlockKeys).

(** The [flatMap] callback of lines 105-110. *)
Definition collectionViewId (block : Block) : list string :=
  match value block with
  | Some v => if String.eqb (type v) "collection_view" then [id v] else []
  | None => []
  end.

(** Lines 101-111: the ids of the collection-view blocks, first one only. *)
Definition pendingCollections (allBlocks : Graph) : list string :=
  let allBlockKeys := keys allBlocks in
  firstn 1
    (flat_map (fun blockId =>
                 match lookup allBlocks blockId with
                 | Some block => collectionViewId block
                 | None => []
                 end)
              allBlockKeys).

(* ================================================================== *)
(** ** Effects: the counter, the collaborators, exceptions *)

Section Route.
(** State of everything outside this module (the remote API). *)
Variable W : Type.

Record State : Type := mkState {
  apiCallCount : Z;
  world : W;
  events : list Event
}.

(** An awaited asynchronous computation. *)
Definition M (A : Type) : Type := State -> Outcome A * State.

Definition ret {A} (a : A) : M A := fun s => (Returned a, s).

Definition throw {A} (e : JsError) : M A := fun s => (Thrown e, s).

Definition bind {A B} (c : M A) (k : A -> M B) : M B :=
  fun s =>
    match c s with
    | (Returned a, s') => k a s'
    | (Thrown e, s') => (Thrown e, s')
    end.

Notation "x <- c ;; k" := (bind c (fun x => k))
  (at level 61, c at next level, right associativity).

Definition emit (e : Event) (s : State) : State :=
  mkState (apiCallCount s) (world s) (events s ++ [e]).

Definition readCounter : M Z := fun s => (Returned (apiCallCount s), s).

Definition writeCounter (v : Z) : M unit :=
  fun s =>
    (Returned tt, mkState v (world s) (events s ++ [CounterWrite v])).

Definition consoleLog (text : string) : M unit :=
  fun s => (Returned tt, emit (ConsoleLog text) s).

(** The imported functions.  The remote ones act on the world and may
    reject with an [Error]. *)
Record Collaborators : Type := {
  parsePageId : string -> option string;
  fetchPageById : option string -> Token -> W -> Outcome PageChunk * W;
  fetchBlocks : list string -> Token -> W -> Outcome PageChunk * W;
  getTableData : CollectionType -> string -> Token -> bool ->
                 W -> Outcome TableData * W
}.

(** Running a collaborator: the call is recorded, the world moves on,
    the counter is out of its reach. *)
Definition invoke {A} (c : Call) (f : W -> Outcome A * W) : M A :=
  fun s =>
    let (r, w) := f (world s) in
    (r, mkState (apiCallCount s) w (events s ++ [Invoked c])).

Variable api : Collaborators.

(** The ceiling the counter is compared with.  The source fixes it to
    [MAX_API_CALLS]; it is a parameter here so that runs under another
    ceiling can be stated as well. *)
Variable ceiling : Z.

(** Lines 12-21. *)
Definition limitedApiCall {T} (apiCallFn : M T) (errorMessage : string)
    : M T :=
  n <- readCounter ;;
  if ceiling <=? n
  then throw (Error ("Too many API calls: " ++ errorMessage)%string)
  else
    _ <- writeCounter (n + 1) ;;
    apiCallFn.

(** The closures handed to [limitedApiCall]. *)
Definition callFetchPageById (pageId : option string) (token : Token)
    : M PageChunk :=
  invoke (CallFetchPageById pageId token) (fetchPageById api pageId token).

(** Lines 79-82, with the projection [res.recordMap.block]. *)
Definition callFetchBlocks (ids : list string) (token : Token) : M Graph :=
  res <- invoke (CallFetchBlocks ids token) (fetchBlocks api ids token) ;;
  ret (block (recordMap res)).

(** Lines 137-138: reading [collView.value.id] fails before the
    collaborator is reached when there is no first view. *)
Definition callGetTableData (coll : CollectionType)
    (collView : option CollectionView) (token : Token) : M TableData :=
  match collView with
  | None => throw (TypeError_read "value")
  | Some cv =>
      invoke (CallGetTableData coll (view_id (view_value cv)) token true)
             (getTableData api coll (view_id (view_value cv)) token true)
  end.

(** *** Block-graph expansion, lines 43-87

    [rounds] is the number of iterations left,
    [MAX_ITERATIONS - iteration]. *)
Fixpoint expandLoop (pageId : option string) (token : Token)
    (rounds : nat) (iteration : Z) (allBlocks : Graph) : M Graph :=
  match rounds with
  | O => ret allBlocks
  | S rounds' =>
      let pending := pendingBlocks pageId allBlocks in
      if (List.length pending =? 0)%nat then ret allBlocks
      else
        n <- readCounter ;;
        if ceiling <=? n
        then
          _ <- consoleLog ("Reached API call limit (" ++ show_int ceiling
                           ++ "). Stopping block fetching.")%string ;;
          ret allBlocks
        else
          newBlocks <-
            limitedApiCall (callFetchBlocks pending token)
              ("while fetching blocks batch " ++
               show_int (iteration + 1))%string ;;
          expandLoop pageId token rounds' (iteration + 1)
                     (spread2 allBlocks newBlocks)
  end.

Definition expandBlocks (pageId : option string) (token : Token)
    (allBlocks : Graph) : M Graph :=
  expandLoop pageId token (Z.to_nat (MAX_ITERATIONS - 0)) 0 allBlocks.

(** *** Collection resolver, lines 89-161 *)

(** Lines 142-157: read [view_ids] of [allBlocks[b]] and store the
    annotated copy back under [b]. *)
Definition annotate (allBlocks : Graph) (b : string)
    (coll : CollectionType) (views : Obj CollectionView)
    (table : TableData) : M Graph :=
  match lookup allBlocks b with
  | None =>
      throw (TypeError_read (if inherited b then "view_ids" else "value"))
  | Some blk =>
      match value blk with
      | None => throw (TypeError_read "view_ids")
      | Some v =>
          match view_ids v with
          | None => throw (TypeError_read "slice")
          | Some viewIds =>
              let limitedViewIds := firstn 1 viewIds in
              ret (set allBlocks b
                     {| value := value blk;
                        collection :=
                          Some {| title := name (collection_value coll);
                                  schema := table_schema table;
                                  types :=
                                    map (fun i =>
                                           match lookup views i with
                                           | Some col => Some (view_value col)
                                           | None => None
                                           end)
                                        limitedViewIds;
                                  data := rows table |};
                        block_rest := block_rest blk |})
          end
      end
  end.

(** Lines 121-159, once the collection page is there. *)
Definition attachCollection (token : Token) (allBlocks : Graph)
    (b : string) (collPage : PageChunk) : M Graph :=
  match rm_collection (recordMap collPage) with
  | Some collMap =>
      match first_value collMap with
      | Some coll =>
          match rm_collection_view (recordMap collPage) with
          | None => throw TypeError_keys
          | Some views =>
              let collView := first_value views in
              n <- readCounter ;;
              if n <? ceiling
              then
                table <-
                  limitedApiCall (callGetTableData coll collView token)
                    "while fetching table data" ;;
                annotate allBlocks b coll views table
              else ret allBlocks
          end
      | None => ret allBlocks
      end
  | None => ret allBlocks
  end.

Definition firstOf {A} (m : option (Obj A)) : option A :=
  match m with
  | Some o => first_value o
  | None => None
  end.

Definition isSome {A} (o : option A) : bool :=
  match o with Some _ => true | None => false end.

Definition resolveCollection (token : Token) (page : PageChunk)
    (allBlocks : Graph) : M Graph :=
  let collection := firstOf (rm_collection (recordMap page)) in
  let collectionView := firstOf (rm_collection_view (recordMap page)) in
  n <- readCounter ;;
  if (isSome collection && isSome collectionView && (n <? ceiling))%bool
  then
    match pendingCollections allBlocks with
    | b :: _ =>
        collPage <- limitedApiCall (callFetchPageById (Some b) token)
                      "while fetching collection page" ;;
        attachCollection token allBlocks b collPage
    | [] => ret allBlocks
    end
  else ret allBlocks.

(** *** The handler, lines 23-181 *)

(** Lines 28-87: the root page and the expanded graph. *)
Definition fetchAndExpand (req : HandlerRequest)
    : M (PageChunk * Graph) :=
  let pageId := parsePageId api (params_pageId req) in
  page <- limitedApiCall (callFetchPageById pageId (notionToken req))
            "while fetching initial page" ;;
  let baseBlocks := block (recordMap page) in
  let allBlocks := spread baseBlocks in
  allBlocks <- expandBlocks pageId (notionToken req) allBlocks ;;
  ret (page, allBlocks).

(** The [try] block. *)
Definition tryBlock (req : HandlerRequest) : M Response :=
  _ <- writeCounter 0 ;;
  pg <- fetchAndExpand req ;;
  allBlocks <- resolveCollection (notionToken req) (fst pg) (snd pg) ;;
  ret (createResponse (GraphPayload allBlocks) None None).

(** Lines 168-177. *)
Definition errorMessageOf (error : JsError) : string :=
  if String.eqb (message error) ""
  then "An error occurred processing the page"
  else message error.

Definition statusOf (errorMessage : string) : Z :=
  if (includes "Too many API calls" errorMessage ||
      includes "Too many subrequests" errorMessage)%bool
  then 429 else 500.

Definition pageRoute (req : HandlerRequest) : State -> Response * State :=
  fun s0 =>
    match tryBlock req s0 with
    | (Returned response, s) => (response, s)
    | (Thrown error, s) =>
        let s' := emit (ConsoleError "Error in pageRoute:" error) s in
        let errorMessage := errorMessageOf error in
        (createResponse (ErrorPayload errorMessage) (Some [])
                        (Some (statusOf errorMessage)), s')
    end.
End Route.

Arguments mkState {W} _ _ _.

(* ================================================================== *)
(** ** Notions used to state the properties *)

(** The state in which the operation of a guarded call starts. *)
Definition entered {W} (s : State W) : State W :=
  mkState (apiCallCount s + 1) (world s)
          (events s ++ [CounterWrite (apiCallCount s + 1)]).

(** The values stored to [apiCallCount] in a run, in order. *)
Fixpoint writes (evs : list Event) : list Z :=
  match evs with
  | [] => []
  | CounterWrite v :: rest => v :: writes rest
  | _ :: rest => writes rest
  end.

(** The collaborator calls made in a run, in order. *)
Fixpoint calls (evs : list Event) : list Call :=
  match evs with
  | [] => []
  | Invoked c :: rest => c :: calls rest
  | _ :: rest => calls rest
  end.

(** [a+1, a+2, ..., a+n]. *)
Definition countUp (a : Z) (n : nat) : list Z :=
  map (fun i => a + Z.of_nat i) (seq 1 n).

Section Discipline.
Variable W : Type.
Variable ceiling : Z.

(** From [s] to [s'] the counter was stored [n] times, each store one
    above the previous value, with at most one collaborator call per
    store, and without passing the ceiling. *)
Definition advances (s s' : State W) : Prop :=
  exists (evs : list Event) (n : nat),
    events s' = events s ++ evs /\
    apiCallCount s' = apiCallCount s + Z.of_nat n /\
    writes evs = countUp (apiCallCount s) n /\
    (List.length (calls evs) <= n)%nat /\
    (apiCallCount s <= ceiling -> apiCallCount s' <= ceiling).

Definition steady {A} (c : M W A) : Prop :=
  forall s, advances s (snd (c s)).

(** An operation that leaves the counter alone and reaches a
    collaborator at most once. *)
Definition external {A} (c : M W A) : Prop :=
  forall s, exists evs,
    events (snd (c s)) = events s ++ evs /\
    apiCallCount (snd (c s)) = apiCallCount s /\
    writes evs = [] /\
    (List.length (calls evs) <= 1)%nat.
End Discipline.


(** A batch request for between 1 and [MAX_BLOCKS_PER_ITERATION] ids. *)
Definition batchCall (token : Token) (c : Call) : Prop :=
  exists ids,
    c = CallFetchBlocks ids token /\
    (1 <= List.length ids <= MAX_BLOCKS_PER_ITERATION)%nat.

(** The state after a guarded call has reached collaborator call [c],
    which left the world as [w]. *)
Definition afterCall {W} (s : State W) (c : Call) (w : W) : State W :=
  mkState (apiCallCount s + 1) w
          ((events s ++ [CounterWrite (apiCallCount s + 1)]) ++ [Invoked c]).

(* ================================================================== *)
(** ** Concrete runs

    A remote API with fixed answers: the world is trivial, a page is
    looked up by id in a table, a batch answer is computed from the
    requested ids. *)

Definition mkBlock (i t : string) (children views : option (list string))
    : string * Block :=
  (i, {| value := Some {| id := i; type := t; content := children;
                          view_ids := views; value_rest := JNull |};
         collection := None;
         block_rest := JStr "reader" |}).

Definition mkChunk (g : Graph) (colls : option (Obj CollectionType))
    (views : option (Obj CollectionView)) : PageChunk :=
  {| recordMap := {| block := g; rm_collection := colls;
                     rm_collection_view := views |} |}.

Definition mkCollection (i : string) (n : string) : string * CollectionType :=
  (i, {| collection_value := {| name := JStr n; collection_rest := JNull |} |}).

Definition mkView (i : string) : string * CollectionView :=
  (i, {| view_value := {| view_id := i; view_rest := JNull |} |}).

Definition cannedApi
    (pages : list (string * Outcome PageChunk))
    (batch : list string -> Outcome PageChunk)
    (table : Outcome TableData) : Collaborators unit :=
  {| parsePageId := fun raw => Some raw;
     fetchPageById := fun pageId _ w =>
       (match pageId with
        | Some p => match lookup pages p with
                    | Some r => r
                    | None => Thrown (Error "Not found")
                    end
        | None => Thrown (Error "Not found")
        end, w);
     fetchBlocks := fun ids _ w => (batch ids, w);
     getTableData := fun _ _ _ _ w => (table, w) |}.

Definition request (raw : string) : HandlerRequest :=
  {| params_pageId := raw; notionToken := Some "secret" |}.

Definition start : State unit := mkState 0 tt [].

(** The root fetch is refused by the remote side. *)
Definition apiOverQuota : Collaborators unit :=
  cannedApi [("root", Thrown (Error "Too many subrequests."))]
            (fun _ => Thrown (Error "unused"))
            (Thrown (Error "unused")).

(** A block of type "page" stored under a key other than the root id. *)
Definition foreignPage (pageId : option string) (blockId : string)
    (block : Block) : Prop :=
  exists v, value block = Some v /\ type v = "page" /\ Some blockId <> pageId.

(** A block without [value], without [content], or with [content: []]. *)
Definition childless (block : Block) : Prop :=
  match value block with
  | None => True
  | Some v => content v = None \/ content v = Some []
  end.

(** A linked page with children of its own, next to the root. *)
Definition graphWithLink : Graph :=
  [ mkBlock "root" "page" (Some ["linked"; "para"]) None;
    mkBlock "linked" "page" (Some ["far1"; "far2"]) None;
    mkBlock "para" "text" (Some []) None ].

(** The state right after [apiCallCount = 0] on line 26. *)
Definition reset {W} (s : State W) : State W :=
  mkState 0 (world s) (events s ++ [CounterWrite 0]).

(** A root page with one child still to fetch, three collection-view
    blocks, one collection and two views. *)
Definition rootBlocks : Graph :=
  [ mkBlock "root" "page" (Some ["child"; "cv1"; "cv2"; "cv3"]) None;
    mkBlock "cv1" "collection_view" None (Some ["v1"; "v2"]);
    mkBlock "cv2" "collection_view" None (Some ["v2"]);
    mkBlock "cv3" "collection_view" None (Some ["v1"]) ].

Definition rootPage : PageChunk :=
  mkChunk rootBlocks
          (Some [mkCollection "coll1" "Tasks"])
          (Some [mkView "v1"; mkView "v2"]).

(** The batch answer holds exactly the requested blocks. *)
Definition echoBatch (ids : list string) : Outcome PageChunk :=
  Returned (mkChunk (map (fun i => mkBlock i "text" None None) ids) None None).

Definition tableAnswer : TableData :=
  {| rows := JArr [JStr "row1"; JStr "row2"]; table_schema := JStr "schema" |}.

(** The page behind the first collection view, as the remote API
    answers it: [collPage] is the parameter of the scenario. *)
Definition apiWithCollection (collPage : PageChunk) : Collaborators unit :=
  cannedApi [("root", Returned rootPage); ("cv1", Returned collPage)]
            echoBatch (Returned tableAnswer).

Definition fullCollectionPage : PageChunk :=
  mkChunk [mkBlock "cv1" "collection_view" None (Some ["v1"; "v2"])]
          (Some [mkCollection "coll1" "Tasks"])
          (Some [mkView "v1"; mkView "v2"]).

(** A collection page whose record map has no [collection_view]. *)
Definition viewlessCollectionPage : PageChunk :=
  mkChunk [mkBlock "cv1" "collection_view" None (Some ["v1"; "v2"])]
          (Some [mkCollection "coll1" "Tasks"])
          None.

(** The graph after the one expansion round of these runs. *)
Definition expandedBlocks : Graph :=
  rootBlocks ++ [mkBlock "child" "text" None None].

(** [blk] with the resolver's annotation attached, all else as it was. *)
Definition annotated (blk : Block) (ann : Annotation) : Block :=
  {| value := value blk; collection := Some ann; block_rest := block_rest blk |}.

Definition isCollectionView (block : Block) : bool :=
  match value block with
  | Some v => String.eqb (type v) "collection_view"
  | None => false
  end.

(** The keys of the collection-view blocks, in key order. *)
Definition collectionViewKeys (g : Graph) : list string :=
  filter (fun k => match lookup g k with
                   | Some block => isCollectionView block
                   | None => false
                   end)
         (keys g).

(** A graph as the remote API delivers it: keys are distinct, and each
    block is stored under its own id. *)
Definition wellKeyed (g : Graph) : Prop :=
  NoDup (keys g) /\
  forall k blk v, lookup g k = Some blk -> value blk = Some v -> id v = k.

(** The annotation the resolver builds on lines 148-156. *)
Definition annotationOf (coll : CollectionType) (views : Obj CollectionView)
    (table : TableData) (viewIds : list string) : Annotation :=
  {| title := name (collection_value coll);
     schema := table_schema table;
     types := map (fun i => match lookup views i with
                            | Some col => Some (view_value col)
                            | None => None
                            end)
                  (firstn 1 viewIds);
     data := rows table |}.

(** The state these runs are in when the expansion is over: the root
    fetch and one batch fetch have been made. *)
Definition afterExpansion : State unit :=
  mkState 2 tt
    [CounterWrite 0;
     CounterWrite 1;
     Invoked (CallFetchPageById (Some "root") (Some "secret"));
     CounterWrite 2;
     Invoked (CallFetchBlocks ["child"] (Some "secret"))].

(** The calls of a resolver run that goes all the way. *)
Definition resolverEvents : list Event :=
  [CounterWrite 3;
   Invoked (CallFetchPageById (Some "cv1") (Some "secret"));
   CounterWrite 4;
   Invoked (CallGetTableData (snd (mkCollection "coll1" "Tasks")) "v1"
                             (Some "secret") true)].

Definition resolvedBlocks : Graph :=
  set expandedBlocks "cv1"
      (annotated (snd (mkBlock "cv1" "collection_view" None (Some ["v1"; "v2"])))
         {| title := JStr "Tasks";
            schema := JStr "schema";
            types := [Some {| view_id := "v1"; view_rest := JNull |}];
            data := JArr [JStr "row1"; JStr "row2"] |}).

(** A batch answer that, next to the requested blocks, carries the root
    block again, with another content list. *)
Definition staleRoot : string * Block :=
  mkBlock "root" "page" (Some ["elsewhere"]) None.

Definition overwritingBatch (ids : list string) : Outcome PageChunk :=
  Returned (mkChunk (map (fun i => mkBlock i "text" None None) ids
                     ++ [staleRoot]) None None).

Definition apiOverwriting : Collaborators unit :=
  cannedApi [("root", Returned rootPage)] overwritingBatch
            (Returned tableAnswer).

(** An object given by its properties in enumeration order: copying it
    property by property yields the same list. *)
Definition enumerated {A} (o : Obj A) : Prop := spread o = o.

(** The [flatMap] of lines 49-63 before the cut to 20. *)
Definition allCandidates (pageId : option string) (allBlocks : Graph)
    (blockIds : list string) : list string :=
  flat_map (fun blockId =>
              match lookup allBlocks blockId with
              | Some block => candidates pageId allBlocks blockId block
              | None => []
              end)
           blockIds.

(** A remote API that never delivers the block "ghost". *)
Definition ghostRoot : Graph :=
  [ mkBlock "root" "page" (Some ["child"; "ghost"]) None ].

Definition forgetfulBatch (ids : list string) : Outcome PageChunk :=
  Returned (mkChunk (map (fun i => mkBlock i "text" None None)
                         (filter (fun i => negb (String.eqb i "ghost")) ids))
                    None None).

Definition apiForgetful : Collaborators unit :=
  cannedApi [("root", Returned (mkChunk ghostRoot None None))]
            forgetfulBatch (Returned tableAnswer).


(** Enumeration order of keys: array indices first and ascending, then
    the other keys. *)
Fixpoint ordered (ks : list string) : Prop :=
  match ks with
  | [] => True
  | k :: rest =>
      match array_index k with
      | Some n =>
          forall k' n', In k' rest -> array_index k' = Some n' -> (n <= n')%N
      | None => forall k', In k' rest -> array_index k' = None
      end /\ ordered rest
  end.

Definition canonical {A} (o : Obj A) : Prop :=
  NoDup (keys o) /\ ordered (keys o).

(* ================================================================== *)
(** ** Notions for the properties of whole runs *)

(** The token a collaborator call was given. *)
Definition callToken (c : Call) : Token :=
  match c with
  | CallFetchPageById _ token => token
  | CallFetchBlocks _ token => token
  | CallGetTableData _ _ token _ => token
  end.

(** [e] is a rejection of one of the remote collaborators. *)
Definition rejectedBy {W} (api : Collaborators W) (e : JsError) : Prop :=
  (exists pageId token w, fst (fetchPageById api pageId token w) = Thrown e) \/
  (exists ids token w, fst (fetchBlocks api ids token w) = Thrown e) \/
  (exists coll viewId token flag w,
      fst (getTableData api coll viewId token flag w) = Thrown e).

(** The errors the engine raises on the reads of lines 131-144. *)
Definition engineErrors : list JsError :=
  [ TypeError_keys; TypeError_read "value"; TypeError_read "view_ids";
    TypeError_read "slice" ].

Section Phases.
Variable W : Type.
Variable Q : JsError -> Prop.
Variable token : Token.

(** Run from [s], the computation [c] makes at most [n] collaborator
    calls, all with [token], moves the counter up by at most [n], and
    throws only errors in [Q]. *)
Definition phase {A} (n : nat) (c : M W A) (s : State W) : Prop :=
  exists evs,
    events (snd (c s)) = events s ++ evs /\
    (List.length (calls evs) <= n)%nat /\
    Forall (fun call => callToken call = token) (calls evs) /\
    apiCallCount s <= apiCallCount (snd (c s)) <= apiCallCount s + Z.of_nat n /\
    forall e, fst (c s) = Thrown e -> Q e.

(** The same for an operation handed to the guard: at most one call,
    the counter untouched. *)
Definition operation {A} (f : M W A) : Prop :=
  forall s, exists evs,
    events (snd (f s)) = events s ++ evs /\
    (List.length (calls evs) <= 1)%nat /\
    Forall (fun call => callToken call = token) (calls evs) /\
    apiCallCount (snd (f s)) = apiCallCount s /\
    forall e, fst (f s) = Thrown e -> Q e.
End Phases.

(** A page that comes with all its blocks and without a collection. *)
Definition apiSelfContained : Collaborators unit :=
  cannedApi [("root", Returned (mkChunk graphWithLink None None))]
            echoBatch (Returned tableAnswer).

(** A collection page whose record map holds no collection. *)
Definition collectionlessPage : PageChunk :=
  mkChunk [mkBlock "cv1" "collection_view" None (Some ["v1"; "v2"])]
          None (Some [mkView "v1"]).

(** A collection page whose [collection_view] map is empty. *)
Definition emptyViewsPage : PageChunk :=
  mkChunk [mkBlock "cv1" "collection_view" None (Some ["v1"; "v2"])]
          (Some [mkCollection "coll1" "Tasks"]) (Some []).

(** A root page whose collection-view block has no [view_ids]. *)
Definition plainViewBlocks : Graph :=
  [ mkBlock "root" "page" (Some ["cv1"]) None;
    mkBlock "cv1" "collection_view" None None ].

Definition apiPlainView : Collaborators unit :=
  cannedApi [("root", Returned (mkChunk plainViewBlocks
                                        (Some [mkCollection "coll1" "Tasks"])
                                        (Some [mkView "v1"])));
             ("cv1", Returned fullCollectionPage)]
            echoBatch (Returned tableAnswer).

(** Whether the block [allBlocks[b]] offers a [view_ids] list. *)
Definition viewIdsOf (allBlocks : Graph) (b : string) : option (list string) :=
  match lookup allBlocks b with
  | Some blk => match value blk with
                | Some v => view_ids v
                | None => None
                end
  | None => None
  end.

(** Remote APIs whose batch fetch, or whose table data, is rejected. *)
Definition apiBatchDown : Collaborators unit :=
  cannedApi [("root", Returned rootPage)]
            (fun _ => Thrown (Error "Bad gateway"))
            (Returned tableAnswer).

Definition apiTableDown : Collaborators unit :=
  cannedApi [("root", Returned rootPage); ("cv1", Returned fullCollectionPage)]
            echoBatch (Thrown (Error "Too many subrequests.")).

(** The [types] entry for a list of view ids: the first id only, looked
    up among the views of the collection page. *)
Definition typesFor (views : Obj CollectionView) (viewIds : list string)
    : list (option CollectionViewValue) :=
  match viewIds with
  | [] => []
  | i :: _ => [match lookup views i with
               | Some col => Some (view_value col)
               | None => None
               end]
  end.

(* ================================================================== *)
(** ** Substrings *)

(** [marker] occurs in [msg]: what [msg.includes(marker)] asks. *)
Definition occursIn (marker msg : string) : Prop :=
  exists pre post, msg = (pre ++ marker ++ post)%string.

(* ================================================================== *)
(** ** Requests that overlap

    [apiCallCount] is a variable of the module (line 9), not of a
    request.  While an invocation of [pageRoute] waits for a collaborator
    (the awaits of lines 29, 78, 116 and 136) the event loop may run other
    invocations, which store to the same variable.  The definitions below
    are the handler once more, line for line, with one addition:
    [others c] is what those other invocations do to the module state,
    the world and the log while the call [c] of this invocation is
    pending.  With [others] the identity they are the handler of a request
    that runs alone. *)

Section Overlap.
Variable W : Type.
Variable api : Collaborators W.
Variable ceiling : Z.
Variable others : Call -> State W -> State W.

Definition invokeAmong {A} (c : Call) (f : W -> Outcome A * W) : M W A :=
  fun s =>
    let (r, w) := f (world s) in
    (r, others c (mkState (apiCallCount s) w (events s ++ [Invoked c]))).

Definition callFetchPageByIdAmong (pageId : option string) (token : Token)
    : M W PageChunk :=
  invokeAmong (CallFetchPageById pageId token)
              (fetchPageById api pageId token).

Definition callFetchBlocksAmong (ids : list string) (token : Token)
    : M W Graph :=
  bind (invokeAmong (CallFetchBlocks ids token) (fetchBlocks api ids token))
       (fun res => ret (block (recordMap res))).

Definition callGetTableDataAmong (coll : CollectionType)
    (collView : option CollectionView) (token : Token) : M W TableData :=
  match collView with
  | None => throw (TypeError_read "value")
  | Some cv =>
      invokeAmong
        (CallGetTableData coll (view_id (view_value cv)) token true)
        (getTableData api coll (view_id (view_value cv)) token true)
  end.

Fixpoint expandLoopAmong (pageId : option string) (token : Token)
    (rounds : nat) (iteration : Z) (allBlocks : Graph) : M W Graph :=
  match rounds with
  | O => ret allBlocks
  | S rounds' =>
      let pending := pendingBlocks pageId allBlocks in
      if (List.length pending =? 0)%nat then ret allBlocks
      else
        bind (@readCounter W) (fun n =>
        if ceiling <=? n
        then
          bind (consoleLog ("Reached API call limit (" ++ show_int ceiling
                            ++ "). Stopping block fetching.")%string)
               (fun _ => ret allBlocks)
        else
          bind (limitedApiCall ceiling (callFetchBlocksAmong pending token)
                  ("while fetching blocks batch " ++
                   show_int (iteration + 1))%string)
               (fun newBlocks =>
                  expandLoopAmong pageId token rounds' (iteration + 1)
                                  (spread2 allBlocks newBlocks)))
  end.

Definition attachCollectionAmong (token : Token) (allBlocks : Graph)
    (b : string) (collPage : PageChunk) : M W Graph :=
  match rm_collection (recordMap collPage) with
  | Some collMap =>
      match first_value collMap with
      | Some coll =>
          match rm_collection_view (recordMap collPage) with
          | None => throw TypeError_keys
          | Some views =>
              let collView := first_value views in
              bind (@readCounter W) (fun n =>
              if n <? ceiling
              then
                bind (limitedApiCall ceiling
                        (callGetTableDataAmong coll collView token)
                        "while fetching table data")
                     (fun table => annotate allBlocks b coll views table)
              else ret allBlocks)
          end
      | None => ret allBlocks
      end
  | None => ret allBlocks
  end.

Definition resolveCollectionAmong (token : Token) (page : PageChunk)
    (allBlocks : Graph) : M W Graph :=
  let collection := firstOf (rm_collection (recordMap page)) in
  let collectionView := firstOf (rm_collection_view (recordMap page)) in
  bind (@readCounter W) (fun n =>
  if (isSome collection && isSome collectionView && (n <? ceiling))%bool
  then
    match pendingCollections allBlocks with
    | b :: _ =>
        bind (limitedApiCall ceiling (callFetchPageByIdAmong (Some b) token)
                "while fetching collection page")
             (fun collPage => attachCollectionAmong token allBlocks b collPage)
    | [] => ret allBlocks
    end
  else ret allBlocks).

Definition fetchAndExpandAmong (req : HandlerRequest)
    : M W (PageChunk * Graph) :=
  let pageId := parsePageId api (params_pageId req) in
  bind (limitedApiCall ceiling
          (callFetchPageByIdAmong pageId (notionToken req))
          "while fetching initial page")
       (fun page =>
  let baseBlocks := block (recordMap page) in
  let allBlocks := spread baseBlocks in
  bind (expandLoopAmong pageId (notionToken req)
          (Z.to_nat (MAX_ITERATIONS - 0)) 0 allBlocks)
       (fun allBlocks => ret (page, allBlocks))).

Definition tryBlockAmong (req : HandlerRequest) : M W Response :=
  bind (writeCounter 0) (fun _ =>
  bind (fetchAndExpandAmong req) (fun pg =>
  bind (resolveCollectionAmong (notionToken req) (fst pg) (snd pg))
       (fun allBlocks =>
  ret (createResponse (GraphPayload allBlocks) None None)))).

Definition pageRouteAmong (req : HandlerRequest)
    : State W -> Response * State W :=
  fun s0 =>
    match tryBlockAmong req s0 with
    | (Returned response, s) => (response, s)
    | (Thrown error, s) =>
        let s' := emit (ConsoleError "Error in pageRoute:" error) s in
        let errorMessage := errorMessageOf error in
        (createResponse (ErrorPayload errorMessage) (Some [])
                        (Some (statusOf errorMessage)), s')
    end.
End Overlap.


(** A root page listing the ids "0" and "ghost".  The batch answer holds
    only requested blocks, never "ghost"; the block "0" lists twenty
    children. *)
Definition twentyIds : list string :=
  [ "n01"; "n02"; "n03"; "n04"; "n05"; "n06"; "n07"; "n08"; "n09"; "n10";
    "n11"; "n12"; "n13"; "n14"; "n15"; "n16"; "n17"; "n18"; "n19"; "n20" ].

Definition indexedRoot : Graph :=
  [ mkBlock "root" "page" (Some ["0"; "ghost"]) None ].

Definition indexedAnswer (ids : list string) : Graph :=
  map (fun i => mkBlock i "text"
                        (if String.eqb i "0" then Some twentyIds else None)
                        None)
      (filter (fun i => negb (String.eqb i "ghost")) ids).

Definition apiIndexed : Collaborators unit :=
  cannedApi [("root", Returned (mkChunk indexedRoot None None))]
            (fun ids => Returned (mkChunk (indexedAnswer ids) None None))
            (Returned tableAnswer).

(* ================================================================== *)
(** ** Facts about lists *)

Lemma In_firstn (A : Type) (n : nat) (l : list A) (x : A) :
  In x (firstn n l) -> In x l.
Proof.
  revert l. induction n as [|n IH]; intros l H.
  - contradiction.
  - destruct l as [|a l]; [contradiction|].
    simpl in H. destruct H as [E|H]; [now left|].
    right. now apply IH.
Qed.

Lemma In_firstn_S (A : Type) (x : A) (n : nat) (l : list A) :
  In x (firstn n l) -> In x (firstn (S n) l).
Proof.
  revert l. induction n as [|n IH]; intros l H.
  - contradiction.
  - destruct l as [|a l]; [contradiction|].
    simpl in H. destruct H as [E|H]; [now left|].
    right. now apply IH.
Qed.

(** An element among the first [n] stays among the first [n] when other
    elements are filtered out and more are appended. *)
Lemma In_firstn_filter (A : Type) (p : A -> bool) (x : A) (rest : list A) :
  p x = true ->
  forall (n : nat) (l : list A),
    In x (firstn n l) -> In x (firstn n (filter p l ++ rest)).
Proof.
  intros Hp n. induction n as [|n IH]; intros l H.
  - contradiction.
  - destruct l as [|a l]; [contradiction|].
    simpl in H. destruct H as [E|H].
    + subst a. simpl filter. rewrite Hp. now left.
    + simpl filter. destruct (p a).
      * right. now apply IH.
      * apply In_firstn_S. now apply IH.
Qed.

Lemma filter_flat_map (A B : Type) (p : B -> bool) (f : A -> list B)
    (l : list A) :
  filter p (flat_map f l) = flat_map (fun a => filter p (f a)) l.
Proof.
  induction l as [|a l IH]; simpl; auto.
  now rewrite filter_app, IH.
Qed.

(* ================================================================== *)
(** ** Facts about objects *)

Section ObjectFacts.
Variable A : Type.
Implicit Types (o t src : Obj A) (k : string) (v : A).

Lemma lookup_None_keys o k : lookup o k = None <-> ~ In k (keys o).
Proof.
  induction o as [|[k' v'] o IH]; simpl.
  - tauto.
  - destruct (String.eqb_spec k' k) as [->|Hne].
    + split; [discriminate | intros H; exfalso; apply H; now left].
    + rewrite IH. split.
      * intros H [E|E]; [now apply Hne | now apply H].
      * intros H E. apply H. now right.
Qed.

Lemma lookup_Some_keys o k v : lookup o k = Some v -> In k (keys o).
Proof.
  intros H. destruct (in_dec string_dec k (keys o)) as [Hin|Hout]; auto.
  apply lookup_None_keys in Hout. congruence.
Qed.

Lemma keys_lookup o k : In k (keys o) -> exists v, lookup o k = Some v.
Proof.
  intros H. destruct (lookup o k) as [v|] eqn:E; eauto.
  apply lookup_None_keys in E. contradiction.
Qed.

Lemma has_true o k : has o k = true <-> In k (keys o).
Proof.
  unfold has. split.
  - destruct (lookup o k) eqn:E; [|discriminate].
    intros _. eapply lookup_Some_keys; eauto.
  - intros H. apply keys_lookup in H as [v ->]. reflexivity.
Qed.

Lemma lookup_app o1 o2 k :
  lookup (o1 ++ o2) k =
  match lookup o1 k with Some v => Some v | None => lookup o2 k end.
Proof.
  induction o1 as [|[k' v'] o1 IH]; simpl; auto.
  destruct (String.eqb k' k); auto.
Qed.

Lemma keys_replace o k v : keys (replace o k v) = keys o.
Proof.
  induction o as [|[k' v'] o IH]; simpl; auto.
  destruct (String.eqb k' k); simpl; [reflexivity | now rewrite IH].
Qed.

Lemma lookup_replace o k v k' :
  lookup (replace o k v) k' =
  if (String.eqb k k' && has o k)%bool then Some v else lookup o k'.
Proof.
  unfold has. induction o as [|[k1 v1] o IH]; simpl.
  - now rewrite andb_false_r.
  - destruct (String.eqb_spec k1 k) as [->|Hne]; simpl.
    + destruct (String.eqb_spec k k'); simpl; auto.
    + rewrite IH. destruct (String.eqb_spec k k') as [E|Hne']; simpl; auto.
      subst k'. destruct (String.eqb_spec k1 k); [contradiction|].
      reflexivity.
Qed.

Lemma replace_app_absent o r k v :
  lookup o k = None -> replace (o ++ r) k v = o ++ replace r k v.
Proof.
  induction o as [|[k' v'] o IH]; simpl; auto.
  destruct (String.eqb k' k); [discriminate|].
  intros H. now rewrite IH.
Qed.

Lemma lookup_insert_index n o k v k' :
  lookup o k = None ->
  lookup (insert_index n k v o) k' =
  if String.eqb k k' then Some v else lookup o k'.
Proof.
  induction o as [|[k1 v1] o IH]; simpl; intros Hk.
  - reflexivity.
  - destruct (String.eqb_spec k1 k) as [->|Hne]; [discriminate|].
    destruct (array_index k1) as [n1|].
    + destruct (n <? n1)%N; simpl; auto.
      rewrite IH by assumption.
      destruct (String.eqb_spec k1 k') as [E1|]; auto.
      destruct (String.eqb_spec k k'); [congruence | reflexivity].
    + reflexivity.
Qed.

(** Reading back after [o[k] = v]. *)
Lemma lookup_set o k v k' :
  lookup (set o k v) k' = if String.eqb k k' then Some v else lookup o k'.
Proof.
  unfold set. destruct (has o k) eqn:Hh.
  - rewrite lookup_replace, Hh, andb_true_r. reflexivity.
  - assert (Hn : lookup o k = None).
    { unfold has in Hh. destruct (lookup o k); [discriminate | reflexivity]. }
    destruct (array_index k) as [n|].
    + now apply lookup_insert_index.
    + rewrite lookup_app. simpl.
      destruct (String.eqb_spec k k') as [<-|Hne].
      * now rewrite Hn.
      * destruct (lookup o k'); reflexivity.
Qed.

Lemma keys_set_present o k v : has o k = true -> keys (set o k v) = keys o.
Proof. unfold set. intros ->. apply keys_replace. Qed.

(** Reading from [{ ...t, ...src }]: the source wins. *)
Lemma lookup_assign t src k :
  lookup (assign t src) k =
  match lookup src k with Some v => Some v | None => lookup t k end.
Proof.
  unfold assign.
  assert (G : forall ks t0,
    lookup (fold_left (fun t1 k1 => match lookup src k1 with
                                    | Some v => set t1 k1 v
                                    | None => t1
                                    end) ks t0) k =
    if in_dec string_dec k ks
    then match lookup src k with Some v => Some v | None => lookup t0 k end
    else lookup t0 k).
  { induction ks as [|k1 ks IH]; intros t0; simpl; auto.
    rewrite IH.
    destruct (string_dec k1 k) as [->|Hne].
    - destruct (lookup src k) as [v|] eqn:E.
      + rewrite lookup_set, String.eqb_refl.
        destruct (in_dec string_dec k ks); reflexivity.
      + destruct (in_dec string_dec k ks); reflexivity.
    - assert (Hl : lookup (match lookup src k1 with
                           | Some v => set t0 k1 v
                           | None => t0
                           end) k = lookup t0 k).
      { destruct (lookup src k1); auto.
        rewrite lookup_set.
        destruct (String.eqb_spec k1 k); [contradiction | reflexivity]. }
      rewrite Hl.
      destruct (in_dec string_dec k ks); reflexivity. }
  rewrite G.
  destruct (in_dec string_dec k (keys src)) as [Hin|Hout]; auto.
  apply lookup_None_keys in Hout. now rewrite Hout.
Qed.

Lemma lookup_spread o k : lookup (spread o) k = lookup o k.
Proof.
  unfold spread. rewrite lookup_assign. simpl.
  destruct (lookup o k); reflexivity.
Qed.

Lemma lookup_spread2 o src k :
  lookup (spread2 o src) k =
  match lookup src k with Some v => Some v | None => lookup o k end.
Proof. unfold spread2. now rewrite lookup_assign, lookup_spread. Qed.
End ObjectFacts.

(* ================================================================== *)
(** ** Facts about [includes] *)

Lemma prefix_refl (s : string) : prefix s s = true.
Proof.
  induction s as [|c s IH]; simpl; auto.
  destruct (ascii_dec c c); [assumption | contradiction].
Qed.

Lemma prefix_append (p s : string) : prefix p (p ++ s)%string = true.
Proof.
  induction p as [|c p IH]; simpl.
  - destruct s; reflexivity.
  - destruct (ascii_dec c c); [assumption | contradiction].
Qed.

Lemma includes_prefix (p s : string) : includes p (p ++ s)%string = true.
Proof.
  destruct p as [|c p].
  - destruct s; reflexivity.
  - change (prefix (String c p) (String c p ++ s)%string ||
            includes (String c p) (p ++ s)%string = true).
    now rewrite prefix_append.
Qed.

Lemma includes_suffix (p s : string) : includes s (p ++ s)%string = true.
Proof.
  induction p as [|c p IH]; simpl.
  - destruct s; simpl; [reflexivity|].
    destruct (ascii_dec a a); [|contradiction].
    now rewrite prefix_refl.
  - rewrite IH. apply orb_true_r.
Qed.

Lemma prefix_occurs (p s : string) :
  prefix p s = true <-> exists post, s = (p ++ post)%string.
Proof.
  revert s. induction p as [|a p IH]; intros s.
  - split; [intros _; now exists s | intros _; destruct s; reflexivity].
  - destruct s as [|b s]; simpl.
    + split; [discriminate | intros [post H]; discriminate].
    + destruct (ascii_dec a b) as [->|Hne].
      * rewrite IH. split.
        -- intros [post ->]. now exists post.
        -- intros [post H]. inversion H. now exists post.
      * split; [discriminate|]. intros [post H]. inversion H. congruence.
Qed.

(** [includes] finds exactly the occurrences. *)
Lemma includes_occurs (marker msg : string) :
  includes marker msg = true <-> occursIn marker msg.
Proof.
  unfold occursIn. induction msg as [|c msg IH].
  - change (includes marker "") with (prefix marker "" || false).
    rewrite orb_false_r, prefix_occurs. split.
    + intros [post H]. now exists "", post.
    + intros (pre & post & H). destruct pre; [now exists post | discriminate].
  - change (includes marker (String c msg))
      with (prefix marker (String c msg) || includes marker msg).
    rewrite orb_true_iff, prefix_occurs, IH. split.
    + intros [[post H] | (pre & post & H)].
      * now exists "", post.
      * exists (String c pre), post. simpl. now rewrite H.
    + intros (pre & post & H). destruct pre as [|c' pre].
      * left. now exists post.
      * right. simpl in H. inversion H. now exists pre, post.
Qed.

(* ================================================================== *)
(** ** The call budget *)

Section Budget.
Variable W : Type.
Implicit Types (s : State W).

Lemma limitedApiCall_exhausted ceiling T (f : M W T) label s :
  ceiling <= apiCallCount s ->
  limitedApiCall ceiling f label s =
  (Thrown (Error ("Too many API calls: " ++ label)%string), s).
Proof.
  intros H. unfold limitedApiCall, bind, readCounter, throw.
  destruct (Z.leb_spec ceiling (apiCallCount s)); [reflexivity | lia].
Qed.

Lemma limitedApiCall_enter ceiling T (f : M W T) label s :
  apiCallCount s < ceiling ->
  limitedApiCall ceiling f label s = f (entered s).
Proof.
  intros H. unfold limitedApiCall, bind, readCounter, writeCounter.
  destruct (Z.leb_spec ceiling (apiCallCount s)); [lia | reflexivity].
Qed.
End Budget.

(** C1.  The guard [limitedApiCall], with the source's ceiling of 45.
    When the counter is at or above 45 the call throws an error whose
    message is ["Too many API calls: "] followed by the label (so it
    carries the label), and the whole state is left as it was: the counter
    is not incremented and, whatever the operation is, it is not run.
    Below 45 the counter is stored once, incremented by one, and the
    result and final state are those of the operation started in that
    state: its value or its exception comes back unchanged. *)
Theorem limitedApiCall_spec :
  forall (W T : Type) (apiCallFn : M W T) (label : string) (s : State W),
    (45 <= apiCallCount s ->
       limitedApiCall MAX_API_CALLS apiCallFn label s =
         (Thrown (Error ("Too many API calls: " ++ label)%string), s) /\
       includes label ("Too many API calls: " ++ label)%string = true) /\
    (apiCallCount s < 45 ->
       limitedApiCall MAX_API_CALLS apiCallFn label s =
         apiCallFn (mkState (apiCallCount s + 1) (world s)
                            (events s ++ [CounterWrite (apiCallCount s + 1)]))).
Proof.
  intros W T f label s. split.
  - intros H. split.
    + now apply limitedApiCall_exhausted.
    + apply includes_suffix.
  - intros H. now apply limitedApiCall_enter.
Qed.

Lemma limitedApiCall_spec_witness :
  let op : M unit PageChunk :=
    callFetchPageById apiOverQuota (Some "root") None in
  limitedApiCall MAX_API_CALLS op "while fetching initial page"
                 (mkState 45 tt []) =
    (Thrown (Error "Too many API calls: while fetching initial page"),
     mkState 45 tt []) /\
  limitedApiCall MAX_API_CALLS op "while fetching initial page"
                 (mkState 44 tt []) =
    op (mkState 45 tt [CounterWrite 45]).
Proof.
  intros op.
  assert (H45 : 45 <= apiCallCount (mkState 45 tt [])) by (simpl; lia).
  assert (H44 : apiCallCount (mkState 44 tt []) < 45) by (simpl; lia).
  split.
  - exact (proj1 (proj1 (limitedApiCall_spec op "while fetching initial page"
                           (mkState 45 tt [])) H45)).
  - exact (proj2 (limitedApiCall_spec op "while fetching initial page"
                    (mkState 44 tt [])) H44).
Defined.

(* ------------------------------------------------------------------ *)
(** *** The counter along a run *)


Lemma calls_app (e1 e2 : list Event) : calls (e1 ++ e2) = calls e1 ++ calls e2.
Proof.
  induction e1 as [|e e1 IH]; simpl; auto.
  destruct e; simpl; now rewrite IH.
Qed.



Section DisciplineFacts.
Variable W : Type.
Variable ceiling : Z.
Implicit Types (s : State W).

Lemma advances_refl s : advances ceiling s s.
Proof.
  exists [], 0%nat. rewrite app_nil_r. simpl.
  repeat split; auto; lia.
Qed.


Lemma advances_quiet s s' evs :
  events s' = events s ++ evs ->
  apiCallCount s' = apiCallCount s ->
  writes evs = [] -> calls evs = [] ->
  advances ceiling s s'.
Proof.
  intros E C Hw Hc. exists evs, 0%nat. rewrite Hw, Hc. simpl.
  repeat split; auto; lia.
Qed.

Lemma steady_ret A (a : A) : steady ceiling (ret (W := W) a).
Proof. intros s. apply advances_refl. Qed.

Lemma steady_throw A e : steady ceiling (throw (W := W) (A := A) e).
Proof. intros s. apply advances_refl. Qed.

Lemma steady_readCounter : steady ceiling (readCounter (W := W)).
Proof. intros s. apply advances_refl. Qed.

Lemma steady_consoleLog text : steady ceiling (consoleLog (W := W) text).
Proof.
  intros s. simpl. apply advances_quiet with (evs := [ConsoleLog text]); auto.
Qed.


Lemma external_invoke A (c : Call) (f : W -> Outcome A * W) :
  external (invoke c f).
Proof.
  intros s. exists [Invoked c]. unfold invoke.
  destruct (f (world s)) as [r w]. simpl. auto.
Qed.

Lemma external_callFetchPageById api pageId token :
  external (callFetchPageById (W := W) api pageId token).
Proof. apply external_invoke. Qed.

Lemma external_callFetchBlocks api ids token :
  external (callFetchBlocks (W := W) api ids token).
Proof.
  intros s. exists [Invoked (CallFetchBlocks ids token)].
  unfold callFetchBlocks, bind, invoke, ret.
  destruct (fetchBlocks api ids token (world s)) as [[r|e] w]; simpl; auto.
Qed.

Lemma external_callGetTableData api coll collView token :
  external (callGetTableData (W := W) api coll collView token).
Proof.
  destruct collView as [cv|]; simpl.
  - apply external_invoke.
  - intros s. exists []. simpl. rewrite app_nil_r. auto.
Qed.

Lemma steady_limitedApiCall T (f : M W T) label :
  external f -> steady ceiling (limitedApiCall ceiling f label).
Proof.
  intros Hf s.
  destruct (Z.le_gt_cases ceiling (apiCallCount s)) as [Hge|Hlt].
  - rewrite limitedApiCall_exhausted by assumption. apply advances_refl.
  - rewrite limitedApiCall_enter by lia.
    destruct (Hf (entered s)) as (evs & E & C & Hw & Hc).
    exists (CounterWrite (apiCallCount s + 1) :: evs), 1%nat.
    simpl in E, C. repeat split.
    + rewrite E, <- app_assoc. reflexivity.
    + rewrite C. lia.
    + simpl. rewrite Hw. unfold countUp. simpl. reflexivity.
    + simpl. exact Hc.
    + intros _. rewrite C. lia.
Qed.
End DisciplineFacts.

Section RouteDiscipline.
Variable W : Type.
Variable api : Collaborators W.
Variable ceiling : Z.

Create HintDb budget.
Local Hint Resolve steady_ret steady_throw steady_readCounter
  steady_consoleLog steady_limitedApiCall external_callFetchPageById
  external_callFetchBlocks external_callGetTableData : budget.






End RouteDiscipline.





(* ================================================================== *)
(** ** Block-graph expansion *)

Section Expansion.
Variable W : Type.
Variable api : Collaborators W.
Variable ceiling : Z.
Variables (pageId : option string) (token : Token).
Implicit Types (s : State W) (g : Graph).

Lemma pendingBlocks_length g :
  (List.length (pendingBlocks pageId g) <= MAX_BLOCKS_PER_ITERATION)%nat.
Proof. unfold pendingBlocks. apply firstn_le_length. Qed.

(** One round, case by case. *)
Lemma expandLoop_fixpoint rounds iteration g s :
  pendingBlocks pageId g = [] ->
  expandLoop api ceiling pageId token (S rounds) iteration g s
  = (Returned g, s).
Proof. intros H. simpl. rewrite H. reflexivity. Qed.

Lemma expandLoop_exhausted rounds iteration g s :
  pendingBlocks pageId g <> [] ->
  ceiling <= apiCallCount s ->
  expandLoop api ceiling pageId token (S rounds) iteration g s
  = (Returned g,
     emit (ConsoleLog ("Reached API call limit (" ++ show_int ceiling
                       ++ "). Stopping block fetching.")%string) s).
Proof.
  intros Hp Hc. simpl.
  destruct (pendingBlocks pageId g) as [|x l]; [contradiction|].
  simpl. unfold bind at 1. unfold readCounter.
  destruct (Z.leb_spec ceiling (apiCallCount s)); [reflexivity | lia].
Qed.

Lemma expandLoop_fetch rounds iteration g s :
  pendingBlocks pageId g <> [] ->
  apiCallCount s < ceiling ->
  expandLoop api ceiling pageId token (S rounds) iteration g s
  = let pending := pendingBlocks pageId g in
    match fetchBlocks api pending token (world s) with
    | (Returned res, w) =>
        expandLoop api ceiling pageId token rounds (iteration + 1)
          (spread2 g (block (recordMap res)))
          (afterCall s (CallFetchBlocks pending token) w)
    | (Thrown e, w) =>
        (Thrown e, afterCall s (CallFetchBlocks pending token) w)
    end.
Proof.
  intros Hp Hc. simpl.
  destruct (pendingBlocks pageId g) as [|x l] eqn:E; [contradiction|].
  simpl. unfold bind at 1. unfold readCounter.
  destruct (Z.leb_spec ceiling (apiCallCount s)); [lia|].
  unfold bind at 1. rewrite limitedApiCall_enter by assumption.
  unfold callFetchBlocks, bind, invoke, ret, entered, afterCall. simpl.
  destruct (fetchBlocks api (x :: l) token (world s)) as [[res|e] w];
    reflexivity.
Qed.

Lemma expandLoop_trace rounds :
  forall iteration g s,
    let out := expandLoop api ceiling pageId token rounds iteration g s in
    exists evs,
      events (snd out) = events s ++ evs /\
      (List.length (calls evs) <= rounds)%nat /\
      Forall (batchCall token) (calls evs) /\
      (forall e, fst out = Thrown e ->
                 exists ids w, fst (fetchBlocks api ids token w) = Thrown e).
Proof.
  induction rounds as [|rounds IH]; intros iteration g s.
  - exists []. simpl. rewrite app_nil_r.
    repeat split; auto. discriminate.
  - destruct (pendingBlocks pageId g) as [|x l] eqn:Ep.
    + rewrite expandLoop_fixpoint by assumption.
      exists []. simpl. rewrite app_nil_r.
      repeat split; auto; [lia | discriminate].
    + assert (Hp : pendingBlocks pageId g <> []) by (rewrite Ep; discriminate).
      destruct (Z.le_gt_cases ceiling (apiCallCount s)) as [Hge|Hlt].
      * rewrite expandLoop_exhausted by assumption.
        eexists. simpl. repeat split; simpl; auto; [lia | discriminate].
      * rewrite expandLoop_fetch by assumption. simpl. rewrite Ep.
        assert (Hb : batchCall token (CallFetchBlocks (x :: l) token)).
        { exists (x :: l). split; auto.
          pose proof (pendingBlocks_length g) as Hl. rewrite Ep in Hl.
          simpl in *. lia. }
        destruct (fetchBlocks api (x :: l) token (world s))
          as [[res|e] w] eqn:Ef.
        -- specialize (IH (iteration + 1)
                          (spread2 g (block (recordMap res)))
                          (afterCall s (CallFetchBlocks (x :: l) token) w)).
           simpl in IH. destruct IH as (evs & E & Hn & Hall & Hthr).
           exists ([CounterWrite (apiCallCount s + 1);
                    Invoked (CallFetchBlocks (x :: l) token)] ++ evs).
           repeat split.
           ++ rewrite E. simpl. rewrite <- !app_assoc. reflexivity.
           ++ simpl. lia.
           ++ simpl. constructor; assumption.
           ++ exact Hthr.
        -- exists [CounterWrite (apiCallCount s + 1);
                   Invoked (CallFetchBlocks (x :: l) token)].
           repeat split.
           ++ simpl. rewrite <- app_assoc. reflexivity.
           ++ simpl. lia.
           ++ simpl. constructor; auto.
           ++ simpl. intros e0 He0. exists (x :: l), (world s).
              rewrite Ef. simpl. now inversion He0.
Qed.
End Expansion.

(** C5.  Expansion of the block graph, for every ceiling, root id, graph
    and collaborator behaviour (so also when every block lists every other
    block).  It is a total function that makes at most 2 calls to
    [fetchBlocks], each for between 1 and 20 ids, and no other call.  With
    no candidate left it returns the graph at once, in an unchanged state.
    With candidates left but the counter at or above the ceiling it
    returns the graph it has, as a normal result, after a console line and
    without any call or change of the counter.  An exception can only
    leave the expansion if [fetchBlocks] itself rejected with it. *)
Theorem expansion_bounded :
  forall (W : Type) (api : Collaborators W) (ceiling : Z)
         (pageId : option string) (token : Token) (g : Graph) (s : State W),
    let out := expandBlocks api ceiling pageId token g s in
    (exists evs,
        events (snd out) = events s ++ evs /\
        (List.length (calls evs) <= 2)%nat /\
        Forall (fun c => exists ids,
                    c = CallFetchBlocks ids token /\
                    (1 <= List.length ids <= 20)%nat) (calls evs)) /\
    (pendingBlocks pageId g = [] -> out = (Returned g, s)) /\
    (pendingBlocks pageId g <> [] -> ceiling <= apiCallCount s ->
       exists s',
         out = (Returned g, s') /\
         apiCallCount s' = apiCallCount s /\
         world s' = world s /\
         calls (events s') = calls (events s)) /\
    (forall e, fst out = Thrown e ->
       exists ids w, fst (fetchBlocks api ids token w) = Thrown e).
Proof.
  intros W api ceiling pageId token g s out. subst out.
  unfold expandBlocks. change (Z.to_nat (MAX_ITERATIONS - 0)) with 2%nat.
  destruct (expandLoop_trace api ceiling pageId token 2 0 g s)
    as (evs & E & Hn & Hall & Hthr).
  repeat split.
  - exists evs. repeat split; auto.
  - intros Hp. now apply expandLoop_fixpoint.
  - intros Hp Hc. rewrite expandLoop_exhausted by assumption.
    eexists. split; [reflexivity|]. simpl.
    rewrite calls_app. simpl. rewrite app_nil_r. auto.
  - exact Hthr.
Qed.


Lemma expansion_bounded_witness :
  pendingBlocks (Some "root") graphWithLink = [] /\
  expandBlocks apiForgetful MAX_API_CALLS (Some "root") None graphWithLink start
    = (Returned graphWithLink, start) /\
  pendingBlocks (Some "root") ghostRoot <> [] /\
  exists s',
    expandBlocks apiForgetful MAX_API_CALLS (Some "root") None ghostRoot
                 (mkState 45 tt []) = (Returned ghostRoot, s') /\
    apiCallCount s' = 45 /\
    world s' = tt /\
    calls (events s') = [].
Proof.
  assert (Hnone : pendingBlocks (Some "root") graphWithLink = [])
    by reflexivity.
  assert (Hsome : pendingBlocks (Some "root") ghostRoot <> [])
    by discriminate.
  assert (Hfull : MAX_API_CALLS <= apiCallCount (mkState 45 tt []))
    by (simpl; unfold MAX_API_CALLS; lia).
  split; [exact Hnone|]. split.
  - exact (proj1 (proj2 (expansion_bounded apiForgetful MAX_API_CALLS
                           (Some "root") None graphWithLink start)) Hnone).
  - split; [exact Hsome|].
    exact (proj1 (proj2 (proj2 (expansion_bounded apiForgetful MAX_API_CALLS
                                  (Some "root") None ghostRoot
                                  (mkState 45 tt []))))
             Hsome Hfull).
Defined.

(* ================================================================== *)
(** ** The error classifier *)

Lemma errorMessageOf_nonempty (error : JsError) : errorMessageOf error <> "".
Proof.
  unfold errorMessageOf.
  destruct (String.eqb_spec (message error) ""); [discriminate | assumption].
Qed.

(** C6.  Whenever the [try] block of [pageRoute] ends with a thrown
    [Error], whichever step threw it, the handler returns the payload
    [{ error: message }]: the message is the error's own message, or
    ["An error occurred processing the page"] when that is empty, so it is
    never empty; the status is 429 when ["Too many API calls"] or
    ["Too many subrequests"] occurs anywhere in the message, and 500 when
    neither does. *)
Theorem error_classification :
  forall (W : Type) (api : Collaborators W) (ceiling : Z)
         (req : HandlerRequest) (s s1 : State W) (error : JsError),
    tryBlock api ceiling req s = (Thrown error, s1) ->
    exists msg status,
      fst (pageRoute api ceiling req s) =
        createResponse (ErrorPayload msg) (Some []) (Some status) /\
      msg = (if String.eqb (message error) ""
             then "An error occurred processing the page"
             else message error) /\
      msg <> "" /\
      (occursIn "Too many API calls" msg \/
       occursIn "Too many subrequests" msg -> status = 429) /\
      (~ occursIn "Too many API calls" msg /\
       ~ occursIn "Too many subrequests" msg -> status = 500).
Proof.
  intros W api ceiling req s s1 error H.
  exists (errorMessageOf error), (statusOf (errorMessageOf error)).
  unfold pageRoute. rewrite H. simpl.
  split; [reflexivity|]. split; [reflexivity|].
  split; [apply errorMessageOf_nonempty|].
  unfold statusOf. split.
  - intros [E|E]; apply includes_occurs in E; rewrite E; simpl; auto.
    now rewrite orb_true_r.
  - intros [E1 E2].
    destruct (includes "Too many API calls" (errorMessageOf error)) eqn:I1.
    { exfalso. apply E1. now apply includes_occurs. }
    destruct (includes "Too many subrequests" (errorMessageOf error)) eqn:I2.
    { exfalso. apply E2. now apply includes_occurs. }
    reflexivity.
Qed.

Lemma error_classification_witness :
  fst (pageRoute apiOverQuota MAX_API_CALLS (request "root") start) =
    createResponse (ErrorPayload "Too many subrequests.") (Some []) (Some 429)
  /\
  fst (pageRoute apiBatchDown MAX_API_CALLS (request "root") start) =
    createResponse (ErrorPayload "Bad gateway") (Some []) (Some 500).
Proof.
  split.
  - destruct (@error_classification unit apiOverQuota MAX_API_CALLS
                (request "root") start _ (Error "Too many subrequests.")
                eq_refl)
      as (msg & status & Hresp & Hmsg & _ & H429 & _).
    simpl in Hmsg. subst msg.
    assert (Hocc : occursIn "Too many subrequests" "Too many subrequests.")
      by (exists "", "."; reflexivity).
    rewrite (H429 (or_intror Hocc)) in Hresp. exact Hresp.
  - destruct (@error_classification unit apiBatchDown MAX_API_CALLS
                (request "root") start _ (Error "Bad gateway") eq_refl)
      as (msg & status & Hresp & Hmsg & _ & _ & H500).
    simpl in Hmsg. subst msg.
    assert (Hno : ~ occursIn "Too many API calls" "Bad gateway" /\
                  ~ occursIn "Too many subrequests" "Bad gateway").
    { split; intros Hocc; apply includes_occurs in Hocc;
        vm_compute in Hocc; discriminate. }
    rewrite (H500 Hno) in Hresp. exact Hresp.
Defined.

(* ================================================================== *)
(** ** Candidates of a round *)

Lemma candidates_foreign pageId (allBlocks : Graph) blockId block :
  foreignPage pageId blockId block ->
  candidates pageId allBlocks blockId block = [].
Proof.
  intros (v & Hv & Ht & Hne). unfold candidates. rewrite Hv.
  destruct (content v) as [ids|]; [|reflexivity].
  rewrite Ht. simpl.
  destruct pageId as [p|]; [|reflexivity].
  destruct (String.eqb_spec blockId p) as [->|]; [congruence | reflexivity].
Qed.

Lemma candidates_childless pageId (allBlocks : Graph) blockId block :
  childless block ->
  candidates pageId allBlocks blockId block = [].
Proof.
  unfold childless, candidates.
  destruct (value block) as [v|]; [|reflexivity].
  intros [-> | ->]; [reflexivity|].
  match goal with |- (if ?c then _ else _) = _ => destruct c end; reflexivity.
Qed.

Lemma candidates_origin pageId (allBlocks : Graph) blockId block x :
  In x (candidates pageId allBlocks blockId block) ->
  exists v ids,
    value block = Some v /\ content v = Some ids /\ In x ids /\
    truthy_at allBlocks x = false /\
    ~ foreignPage pageId blockId block.
Proof.
  unfold candidates.
  destruct (value block) as [v|] eqn:Hv; [|contradiction].
  destruct (content v) as [ids|] eqn:Hc; [|contradiction].
  destruct (String.eqb_spec (type v) "page") as [Ht|Ht]; simpl.
  - destruct pageId as [p|]; simpl; [|contradiction].
    destruct (String.eqb_spec blockId p) as [->|]; simpl; [|contradiction].
    intros Hin. apply filter_In in Hin as [Hin Hf].
    exists v, ids. repeat split; auto.
    + now apply negb_true_iff.
    + intros (v' & Hv' & _ & Hne). congruence.
  - intros Hin. apply filter_In in Hin as [Hin Hf].
    exists v, ids. repeat split; auto.
    + now apply negb_true_iff.
    + intros (v' & Hv' & Ht' & _). congruence.
Qed.

(** C7.  In a round the candidates are the concatenation, over the keys
    of the graph, of what the callback [candidates] yields for each
    block, cut to 20.  For a block of type "page" stored under an id that
    differs from the root page id the callback yields no id at all,
    whatever its content list holds; it yields none either for a block
    whose content list is empty or absent (or that has no value).
    Consequently every id selected in a round is listed in the content
    of some block of the graph that is not such a foreign page. *)
Theorem skipped_blocks_contribute_nothing :
  forall (pageId : option string) (allBlocks : Graph),
    (forall blockId block,
        foreignPage pageId blockId block ->
        candidates pageId allBlocks blockId block = []) /\
    (forall blockId block,
        childless block ->
        candidates pageId allBlocks blockId block = []) /\
    (forall x,
        In x (pendingBlocks pageId allBlocks) ->
        exists blockId block v ids,
          lookup allBlocks blockId = Some block /\
          value block = Some v /\ content v = Some ids /\ In x ids /\
          ~ foreignPage pageId blockId block).
Proof.
  intros pageId allBlocks. split; [|split].
  - intros. now apply candidates_foreign.
  - intros. now apply candidates_childless.
  - intros x Hin. unfold pendingBlocks in Hin.
    apply In_firstn in Hin. apply in_flat_map in Hin as (k & Hk & Hx).
    destruct (lookup allBlocks k) as [block|] eqn:El; [|contradiction].
    apply candidates_origin in Hx as (v & ids & Hv & Hc & Hi & _ & Hf).
    exists k, block, v, ids. auto.
Qed.

Lemma skipped_blocks_contribute_nothing_witness :
  foreignPage (Some "root") "linked" (snd (mkBlock "linked" "page" (Some ["far1"; "far2"]) None)) /\
  candidates (Some "root") graphWithLink "linked"
    (snd (mkBlock "linked" "page" (Some ["far1"; "far2"]) None)) = [] /\
  childless (snd (mkBlock "para" "text" (Some []) None)) /\
  candidates (Some "root") graphWithLink "para"
    (snd (mkBlock "para" "text" (Some []) None)) = [] /\
  pendingBlocks (Some "root") graphWithLink = [].
Proof.
  assert (F : foreignPage (Some "root") "linked"
                (snd (mkBlock "linked" "page" (Some ["far1"; "far2"]) None))).
  { eexists. simpl. split; [reflexivity|]. split; [reflexivity|]. discriminate. }
  assert (C : childless (snd (mkBlock "para" "text" (Some []) None))).
  { simpl. now right. }
  split; [exact F|]. split.
  - exact (proj1 (skipped_blocks_contribute_nothing (Some "root") graphWithLink)
             "linked" _ F).
  - split; [exact C|]. split.
    + exact (proj1 (proj2 (skipped_blocks_contribute_nothing
                             (Some "root") graphWithLink)) "para" _ C).
    + reflexivity.
Defined.

(* ================================================================== *)
(** ** The handler as a whole *)

Section Handler.
Variable W : Type.
Variable api : Collaborators W.
Variable ceiling : Z.
Implicit Types (s : State W) (g : Graph).

Lemma tryBlock_phases req s :
  tryBlock api ceiling req s =
  match fetchAndExpand api ceiling req (reset s) with
  | (Returned pg, s1) =>
      match resolveCollection api ceiling (notionToken req)
                              (fst pg) (snd pg) s1 with
      | (Returned allBlocks, s2) =>
          (Returned (createResponse (GraphPayload allBlocks) None None), s2)
      | (Thrown e, s2) => (Thrown e, s2)
      end
  | (Thrown e, s1) => (Thrown e, s1)
  end.
Proof.
  unfold tryBlock. unfold bind at 1. simpl. fold (reset s).
  unfold bind at 1.
  destruct (fetchAndExpand api ceiling req (reset s)) as [[pg|e] s1];
    [|reflexivity].
  unfold bind, ret.
  destruct (resolveCollection api ceiling (notionToken req) (fst pg) (snd pg) s1)
    as [[g|e] s2]; reflexivity.
Qed.

(** The resolver does nothing once the budget is used up. *)
Lemma resolveCollection_exhausted token page g s :
  ceiling <= apiCallCount s ->
  resolveCollection api ceiling token page g s = (Returned g, s).
Proof.
  intros H. unfold resolveCollection, bind, readCounter.
  destruct (Z.ltb_spec (apiCallCount s) ceiling); [lia|].
  rewrite andb_false_r. reflexivity.
Qed.

Lemma first_value_nonempty A (o : Obj A) :
  o <> [] -> exists v, first_value o = Some v.
Proof.
  destruct o as [|[k v] o]; [contradiction|]. intros _.
  exists v. unfold first_value. simpl. now rewrite String.eqb_refl.
Qed.

(** The resolver up to the answer for the collection page. *)
Lemma resolveCollection_fetch token page g s b rest :
  firstOf (rm_collection (recordMap page)) <> None ->
  firstOf (rm_collection_view (recordMap page)) <> None ->
  apiCallCount s < ceiling ->
  pendingCollections g = b :: rest ->
  resolveCollection api ceiling token page g s =
  match fetchPageById api (Some b) token (world s) with
  | (Returned collPage, w) =>
      attachCollection api ceiling token g b collPage
        (afterCall s (CallFetchPageById (Some b) token) w)
  | (Thrown e, w) =>
      (Thrown e, afterCall s (CallFetchPageById (Some b) token) w)
  end.
Proof.
  intros Hc Hv Hn Hp. unfold resolveCollection. unfold bind at 1.
  unfold readCounter.
  destruct (firstOf (rm_collection (recordMap page))); [|contradiction].
  destruct (firstOf (rm_collection_view (recordMap page))); [|contradiction].
  destruct (Z.ltb_spec (apiCallCount s) ceiling); [|lia].
  simpl. rewrite Hp. unfold bind at 1.
  rewrite limitedApiCall_enter by assumption.
  unfold callFetchPageById, invoke, entered, afterCall. simpl.
  destruct (fetchPageById api (Some b) token (world s)) as [[collPage|e] w];
    reflexivity.
Qed.

Lemma attachCollection_viewless token g b collPage s collMap :
  rm_collection (recordMap collPage) = Some collMap ->
  collMap <> [] ->
  rm_collection_view (recordMap collPage) = None ->
  attachCollection api ceiling token g b collPage s = (Thrown TypeError_keys, s).
Proof.
  intros Hc Hne Hv. unfold attachCollection. rewrite Hc.
  destruct (first_value_nonempty Hne) as [coll ->].
  rewrite Hv. reflexivity.
Qed.
End Handler.

(** C3 (amended).  For any ceiling, and so for a ceiling of 2 with both
    slots used by the root-page fetch and one batch fetch: when the
    counter has reached the ceiling at the end of the expansion, the
    resolver makes no guarded call, whether or not the root page holds a
    collection and a collection view; nothing is thrown, and the handler
    returns the expanded graph as a success, in the state the expansion
    left. *)
Theorem exhausted_budget_skips_resolver :
  forall (W : Type) (api : Collaborators W) (ceiling : Z)
         (req : HandlerRequest) (s s1 : State W)
         (page : PageChunk) (g : Graph),
    fetchAndExpand api ceiling req (reset s) = (Returned (page, g), s1) ->
    ceiling <= apiCallCount s1 ->
    pageRoute api ceiling req s =
      (createResponse (GraphPayload g) None None, s1).
Proof.
  intros W api ceiling req s s1 page g Hf Hc.
  unfold pageRoute. rewrite tryBlock_phases, Hf. simpl.
  rewrite resolveCollection_exhausted by assumption. reflexivity.
Qed.

Lemma exhausted_budget_skips_resolver_witness :
  let s1 := afterExpansion in
  fetchAndExpand (apiWithCollection fullCollectionPage) 2 (request "root")
                 (reset start) = (Returned (rootPage, expandedBlocks), s1) /\
  2 <= apiCallCount s1 /\
  pageRoute (apiWithCollection fullCollectionPage) 2 (request "root") start =
    (createResponse (GraphPayload expandedBlocks) None None, s1).
Proof.
  intros s1.
  assert (Hf : fetchAndExpand (apiWithCollection fullCollectionPage) 2
                 (request "root") (reset start)
               = (Returned (rootPage, expandedBlocks), s1))
    by (vm_compute; reflexivity).
  assert (Hc : 2 <= apiCallCount s1) by (simpl; lia).
  split; [exact Hf|]. split; [exact Hc|].
  exact (exhausted_budget_skips_resolver
           (apiWithCollection fullCollectionPage) (request "root") start Hf Hc).
Defined.

(** C3 (as stated) fails: ceiling 2, the root fetch and one batch fetch
    use both slots, the root page holds a collection and a collection
    view and the graph a collection-view block; the handler answers with
    the graph, not with an error of status 429, and the only calls made
    are those two. *)
Lemma budget_of_two_counterexample :
  let run := pageRoute (apiWithCollection fullCollectionPage) 2
                       (request "root") start in
  firstOf (rm_collection (recordMap rootPage)) <> None /\
  firstOf (rm_collection_view (recordMap rootPage)) <> None /\
  pendingCollections expandedBlocks = ["cv1"] /\
  calls (events (snd run)) =
    [CallFetchPageById (Some "root") (Some "secret");
     CallFetchBlocks ["child"] (Some "secret")] /\
  apiCallCount (snd run) = 2 /\
  fst run = createResponse (GraphPayload expandedBlocks) None None /\
  ~ (exists msg, fst run =
       createResponse (ErrorPayload msg) (Some []) (Some 429)).
Proof.
  vm_compute. repeat split; try discriminate.
  intros [msg H]. discriminate H.
Qed.

(** C10.  Take a run in which the resolver gets its collection page:
    the root page holds a collection and a collection view, budget is
    left after the expansion, the graph has a collection-view block [b],
    and [fetchPageById b] answers [collPage].  If the record map of
    [collPage] has a non-empty [collection] and no [collection_view],
    the resolver throws the [TypeError] of [Object.keys(undefined)]
    instead of stopping quietly, no table data is requested, and the
    handler returns the error payload with that message and status 500,
    not the graph. *)
Theorem missing_collection_view_is_internal_error :
  forall (W : Type) (api : Collaborators W) (ceiling : Z)
         (req : HandlerRequest) (s s1 : State W) (page collPage : PageChunk)
         (g : Graph) (b : string) (rest : list string) (w2 : W)
         (collMap : Obj CollectionType),
    fetchAndExpand api ceiling req (reset s) = (Returned (page, g), s1) ->
    firstOf (rm_collection (recordMap page)) <> None ->
    firstOf (rm_collection_view (recordMap page)) <> None ->
    apiCallCount s1 < ceiling ->
    pendingCollections g = b :: rest ->
    fetchPageById api (Some b) (notionToken req) (world s1)
      = (Returned collPage, w2) ->
    rm_collection (recordMap collPage) = Some collMap ->
    collMap <> [] ->
    rm_collection_view (recordMap collPage) = None ->
    let s2 := afterCall s1 (CallFetchPageById (Some b) (notionToken req)) w2 in
    resolveCollection api ceiling (notionToken req) page g s1
      = (Thrown TypeError_keys, s2) /\
    pageRoute api ceiling req s =
      (createResponse
         (ErrorPayload "Cannot convert undefined or null to object")
         (Some []) (Some 500),
       emit (ConsoleError "Error in pageRoute:" TypeError_keys) s2).
Proof.
  intros W api ceiling req s s1 page collPage g b rest w2 collMap
         Hf Hc Hv Hn Hp Hfetch Hcm Hne Hnone s2.
  assert (Hr : resolveCollection api ceiling (notionToken req) page g s1
               = (Thrown TypeError_keys, s2)).
  { rewrite resolveCollection_fetch with (b := b) (rest := rest)
      by assumption.
    rewrite Hfetch.
    now apply attachCollection_viewless with (collMap := collMap). }
  split; [exact Hr|].
  unfold pageRoute. rewrite tryBlock_phases, Hf. simpl. rewrite Hr.
  reflexivity.
Qed.

Lemma missing_collection_view_is_internal_error_witness :
  let api := apiWithCollection viewlessCollectionPage in
  let s1 := afterExpansion in
  let s2 := afterCall s1 (CallFetchPageById (Some "cv1") (Some "secret")) tt in
  resolveCollection api MAX_API_CALLS (Some "secret") rootPage expandedBlocks s1
    = (Thrown TypeError_keys, s2) /\
  pageRoute api MAX_API_CALLS (request "root") start =
    (createResponse
       (ErrorPayload "Cannot convert undefined or null to object")
       (Some []) (Some 500),
     emit (ConsoleError "Error in pageRoute:" TypeError_keys) s2).
Proof.
  intros api s1 s2.
  refine (missing_collection_view_is_internal_error
            api (ceiling := MAX_API_CALLS) (request "root") start
            (s1 := s1) (page := rootPage)
            (collPage := viewlessCollectionPage)
            (g := expandedBlocks) (b := "cv1") (rest := []) (w2 := tt)
            (collMap := [mkCollection "coll1" "Tasks"])
            _ _ _ _ _ _ _ _ _).
  - vm_compute. reflexivity.
  - discriminate.
  - discriminate.
  - simpl. unfold MAX_API_CALLS. lia.
  - reflexivity.
  - reflexivity.
  - reflexivity.
  - discriminate.
  - reflexivity.
Defined.

(* ================================================================== *)
(** ** The collection resolver *)

Section Resolver.
Variable W : Type.
Variable api : Collaborators W.
Variable ceiling : Z.
Variable token : Token.
Implicit Types (s : State W) (g : Graph).

(** What a returning [attachCollection] has done: nothing, or one
    table-data call followed by the store of the annotated block. *)
Lemma attachCollection_returns g b collPage s g' s' :
  attachCollection api ceiling token g b collPage s = (Returned g', s') ->
  (g' = g /\ s' = s) \/
  exists coll views cv table w blk v viewIds,
    rm_collection_view (recordMap collPage) = Some views /\
    getTableData api coll (view_id (view_value cv)) token true (world s)
      = (Returned table, w) /\
    s' = afterCall s (CallGetTableData coll (view_id (view_value cv))
                                       token true) w /\
    lookup g b = Some blk /\ value blk = Some v /\
    view_ids v = Some viewIds /\
    g' = set g b (annotated blk (annotationOf coll views table viewIds)).
Proof.
  unfold attachCollection.
  destruct (rm_collection (recordMap collPage)) as [collMap|];
    [|intros H; inversion H; now left].
  destruct (first_value collMap) as [coll|];
    [|intros H; inversion H; now left].
  destruct (rm_collection_view (recordMap collPage)) as [views|];
    [|discriminate].
  unfold bind at 1. unfold readCounter.
  destruct (Z.ltb_spec (apiCallCount s) ceiling) as [Hlt|Hge];
    [|intros H; inversion H; now left].
  unfold bind at 1. rewrite limitedApiCall_enter by assumption.
  unfold callGetTableData.
  destruct (first_value views) as [cv|]; [|discriminate].
  unfold invoke, entered. simpl.
  destruct (getTableData api coll (view_id (view_value cv)) token true (world s))
    as [[table|e] w] eqn:Et; [|discriminate].
  unfold annotate.
  destruct (lookup g b) as [blk|] eqn:El; [|discriminate].
  destruct (value blk) as [v|] eqn:Ev; [|discriminate].
  destruct (view_ids v) as [viewIds|] eqn:Evi; [|discriminate].
  unfold ret. intros H. inversion H. right.
  exists coll, views, cv, table, w, blk, v, viewIds.
  repeat split; auto.
  unfold annotated, annotationOf. rewrite Ev. reflexivity.
Qed.

(** The same for the whole resolver. *)
Lemma resolveCollection_returns page g s g' s' :
  resolveCollection api ceiling token page g s = (Returned g', s') ->
  (g' = g /\
   exists evs, events s' = events s ++ evs /\
               forall c, In c (calls evs) ->
                         exists b, c = CallFetchPageById (Some b) token) \/
  exists b rest coll views viewId table blk v viewIds,
    pendingCollections g = b :: rest /\
    events s' = events s ++
                [CounterWrite (apiCallCount s + 1);
                 Invoked (CallFetchPageById (Some b) token);
                 CounterWrite (apiCallCount s + 1 + 1);
                 Invoked (CallGetTableData coll viewId token true)] /\
    (exists w, fst (getTableData api coll viewId token true w) = Returned table) /\
    lookup g b = Some blk /\ value blk = Some v /\
    view_ids v = Some viewIds /\
    g' = set g b (annotated blk (annotationOf coll views table viewIds)).
Proof.
  unfold resolveCollection. unfold bind at 1. unfold readCounter.
  match goal with |- context [if ?c then _ else _] => destruct c eqn:Eg end.
  2:{ intros H. inversion H. left. split; auto.
      exists []. rewrite app_nil_r. split; auto. simpl. contradiction. }
  destruct (pendingCollections g) as [|b rest] eqn:Ep.
  { intros H. inversion H. left. split; auto.
    exists []. rewrite app_nil_r. split; auto. simpl. contradiction. }
  apply andb_true_iff in Eg as [_ Hlt]. apply Z.ltb_lt in Hlt.
  unfold bind at 1. rewrite limitedApiCall_enter by assumption.
  unfold callFetchPageById, invoke, entered. simpl.
  destruct (fetchPageById api (Some b) token (world s)) as [[collPage|e] w];
    [|discriminate].
  intros H. apply attachCollection_returns in H.
  destruct H as [[-> ->] | H].
  - left. split; auto.
    exists [CounterWrite (apiCallCount s + 1);
            Invoked (CallFetchPageById (Some b) token)].
    simpl. rewrite <- app_assoc. split; auto.
    intros c [<-|[]]. now exists b.
  - destruct H as (coll & views & cv & table & w' & blk & v & viewIds &
                   Hv & Ht & -> & Hl & Hval & Hvi & ->).
    right.
    exists b, rest, coll, views, (view_id (view_value cv)), table, blk, v, viewIds.
    repeat split; auto.
    + unfold afterCall. simpl. rewrite <- !app_assoc. reflexivity.
    + simpl in Ht. exists w. now rewrite Ht.
Qed.
End Resolver.

Lemma pendingCollections_wellKeyed (g : Graph) :
  wellKeyed g -> pendingCollections g = firstn 1 (collectionViewKeys g).
Proof.
  intros [_ Hid]. unfold pendingCollections, collectionViewKeys. f_equal.
  induction (keys g) as [|k ks IH]; simpl; auto.
  rewrite IH. destruct (lookup g k) as [blk|] eqn:El; auto.
  unfold collectionViewId, isCollectionView.
  destruct (value blk) as [v|] eqn:Ev; auto.
  destruct (String.eqb (type v) "collection_view"); auto.
  simpl. now rewrite (Hid k blk v El Ev).
Qed.

Lemma collectionViewKeys_NoDup (g : Graph) :
  wellKeyed g -> NoDup (collectionViewKeys g).
Proof. intros [Hnd _]. now apply NoDup_filter. Qed.

(** C8.  Every run of the resolver that returns leaves the keys of the
    graph and their order as they were, and every block keeps its
    [value] and its other fields; a block is either untouched or it is
    the single block under the one pending collection id, with
    [collection] set: that store is the only change to the graph.  On a
    graph with exactly three collection-view blocks (each block stored
    under its own id), a run that resolved the collection (it reached
    [getTableData]) returns a graph in which the first of the three
    carries the annotation [{title, schema, types, data}] built from the
    collection's name and the table answer, with at most one entry in
    [types], and the other two are exactly the blocks they were. *)
Theorem resolver_annotates_one_block :
  forall (W : Type) (api : Collaborators W) (ceiling : Z) (token : Token)
         (page : PageChunk) (g g' : Graph) (s s' : State W),
    resolveCollection api ceiling token page g s = (Returned g', s') ->
    (keys g' = keys g /\
     forall k blk,
       lookup g k = Some blk ->
       exists blk',
         lookup g' k = Some blk' /\
         value blk' = value blk /\ block_rest blk' = block_rest blk /\
         (blk' = blk \/
          exists ann, blk' = annotated blk ann /\ pendingCollections g = [k]))
    /\
    (forall evs k1 k2 k3 coll viewId t flag,
       wellKeyed g ->
       collectionViewKeys g = [k1; k2; k3] ->
       events s' = events s ++ evs ->
       In (Invoked (CallGetTableData coll viewId t flag)) evs ->
       exists blk1 ann table,
         lookup g k1 = Some blk1 /\
         lookup g' k1 = Some (annotated blk1 ann) /\
         (exists w, fst (getTableData api coll viewId t flag w) = Returned table) /\
         title ann = name (collection_value coll) /\
         schema ann = table_schema table /\
         data ann = rows table /\
         (List.length (types ann) <= 1)%nat /\
         lookup g' k2 = lookup g k2 /\
         lookup g' k3 = lookup g k3 /\
         forall k, k <> k1 -> lookup g' k = lookup g k).
Proof.
  intros W api ceiling token page g g' s s' Hrun.
  apply resolveCollection_returns in Hrun.
  destruct Hrun as [[-> (evs0 & E0 & Hcalls)] | Hres].
  - split.
    + split; auto. intros k blk Hl. exists blk. auto.
    + intros evs k1 k2 k3 coll viewId t flag _ _ E Hin. exfalso.
      rewrite E0 in E. apply app_inv_head in E. subst evs0.
      assert (Hc : In (CallGetTableData coll viewId t flag) (calls evs)).
      { clear - Hin. induction evs as [|e evs IH]; [contradiction|].
        destruct Hin as [->|Hin]; [now left|].
        destruct e; simpl; auto. }
      destruct (Hcalls _ Hc) as [b Hb]. discriminate.
  - destruct Hres as (b & rest & coll0 & views & viewId0 & table & blk & v &
                      viewIds & Hp & E0 & (w & Ht) & Hl & Hv & Hvi & ->).
    assert (Hrest : rest = []).
    { unfold pendingCollections in Hp.
      match type of Hp with firstn 1 ?l = _ => destruct l as [|x [|y l']] end;
        simpl in Hp; inversion Hp; reflexivity. }
    subst rest.
    assert (Hhas : has g b = true) by (unfold has; now rewrite Hl).
    split.
    + split; [now apply keys_set_present|].
      intros k blk0 Hk. rewrite lookup_set.
      destruct (String.eqb_spec b k) as [<-|Hne].
      * rewrite Hl in Hk. inversion Hk. subst blk0.
        eexists. split; [reflexivity|]. simpl.
        repeat split; auto. right. eexists. split; [reflexivity | assumption].
      * exists blk0. auto.
    + intros evs k1 k2 k3 coll viewId t flag Hwk Hkeys E Hin.
      rewrite E0 in E. apply app_inv_head in E. subst evs.
      assert (Hcall : CallGetTableData coll viewId t flag =
                      CallGetTableData coll0 viewId0 token true).
      { simpl in Hin.
        destruct Hin as [H|[H|[H|[H|[]]]]]; try discriminate.
        now inversion H. }
      inversion Hcall. subst coll0 viewId0 t flag.
      rewrite (pendingCollections_wellKeyed Hwk), Hkeys in Hp.
      simpl in Hp. inversion Hp. subst b.
      pose proof (collectionViewKeys_NoDup Hwk) as Hnd. rewrite Hkeys in Hnd.
      assert (H12 : k1 <> k2).
      { intros ->. inversion Hnd as [|? ? Hn _]. apply Hn. now left. }
      assert (H13 : k1 <> k3).
      { intros ->. inversion Hnd as [|? ? Hn _]. apply Hn. right. now left. }
      assert (Hother : forall k, k <> k1 ->
                lookup (set g k1 (annotated blk
                          (annotationOf coll views table viewIds))) k
                = lookup g k).
      { intros k Hk. rewrite lookup_set.
        destruct (String.eqb_spec k1 k); [congruence | reflexivity]. }
      exists blk, (annotationOf coll views table viewIds), table.
      repeat split; auto.
      * rewrite lookup_set, String.eqb_refl. reflexivity.
      * now exists w.
      * unfold annotationOf, types. rewrite length_map.
        apply firstn_le_length.
Qed.

Lemma expandedBlocks_wellKeyed : wellKeyed expandedBlocks.
Proof.
  split.
  - simpl. repeat constructor; simpl; intuition discriminate.
  - intros k blk v H Hv.
    unfold expandedBlocks, rootBlocks, mkBlock in H. cbn [app lookup] in H.
    repeat match type of H with
           | context [String.eqb ?a k] =>
               destruct (String.eqb_spec a k);
               [inversion H; subst; simpl in Hv; inversion Hv; reflexivity|]
           end.
    discriminate.
Defined.

Lemma resolver_annotates_one_block_witness :
  resolveCollection (apiWithCollection fullCollectionPage) MAX_API_CALLS
                    (Some "secret") rootPage expandedBlocks afterExpansion
  = (Returned resolvedBlocks,
     mkState 4 tt (events afterExpansion ++ resolverEvents)) /\
  exists blk1 ann table,
    lookup expandedBlocks "cv1" = Some blk1 /\
    lookup resolvedBlocks "cv1" = Some (annotated blk1 ann) /\
    (exists w, fst (getTableData (apiWithCollection fullCollectionPage)
                      (snd (mkCollection "coll1" "Tasks")) "v1"
                      (Some "secret") true w) = Returned table) /\
    title ann = name (collection_value (snd (mkCollection "coll1" "Tasks"))) /\
    schema ann = table_schema table /\
    data ann = rows table /\
    (List.length (types ann) <= 1)%nat /\
    lookup resolvedBlocks "cv2" = lookup expandedBlocks "cv2" /\
    lookup resolvedBlocks "cv3" = lookup expandedBlocks "cv3" /\
    forall k, k <> "cv1" -> lookup resolvedBlocks k = lookup expandedBlocks k.
Proof.
  assert (Hrun :
    resolveCollection (apiWithCollection fullCollectionPage) MAX_API_CALLS
                      (Some "secret") rootPage expandedBlocks afterExpansion
    = (Returned resolvedBlocks,
       mkState 4 tt (events afterExpansion ++ resolverEvents)))
    by (vm_compute; reflexivity).
  split; [exact Hrun|].
  refine (proj2 (resolver_annotates_one_block _ _ _ _ _ _ Hrun)
            resolverEvents "cv1" "cv2" "cv3" _ "v1" (Some "secret") true
            expandedBlocks_wellKeyed _ _ _).
  - reflexivity.
  - reflexivity.
  - simpl. right. right. right. left. reflexivity.
Defined.

(* ================================================================== *)
(** ** The merge of a batch answer *)

Lemma pending_is_unknown pageId (g : Graph) x :
  In x (pendingBlocks pageId g) ->
  lookup g x = None /\ inherited x = false.
Proof.
  intros Hin. unfold pendingBlocks in Hin.
  apply In_firstn in Hin. apply in_flat_map in Hin as (k & _ & Hx).
  destruct (lookup g k) as [block|]; [|contradiction].
  apply candidates_origin in Hx as (v & ids & _ & _ & _ & Ht & _).
  unfold truthy_at in Ht. apply orb_false_iff in Ht as [Hh Hi].
  split; auto. unfold has in Hh. destruct (lookup g x); [discriminate | auto].
Qed.

(** C4 (amended).  The merge of a round is
    [{ ...allBlocks, ...newBlocks }].  A block already in the graph
    keeps its value when the batch answer has no block under its id; this
    is so in particular when the answer holds only requested ids, because
    the candidates of the round are ids the graph does not know.  A block
    that the answer does carry under a known id takes the place of the
    stored one. *)
Theorem merge_keeps_blocks_not_in_answer :
  forall (pageId : option string) (allBlocks newBlocks : Graph)
         (k : string) (blk : Block),
    lookup allBlocks k = Some blk ->
    (lookup newBlocks k = None ->
       lookup (spread2 allBlocks newBlocks) k = Some blk) /\
    ((forall k', In k' (keys newBlocks) ->
                 In k' (pendingBlocks pageId allBlocks)) ->
       lookup (spread2 allBlocks newBlocks) k = Some blk) /\
    (forall blk', lookup newBlocks k = Some blk' ->
       lookup (spread2 allBlocks newBlocks) k = Some blk').
Proof.
  intros pageId allBlocks newBlocks k blk Hk.
  assert (H1 : lookup newBlocks k = None ->
               lookup (spread2 allBlocks newBlocks) k = Some blk).
  { intros Hn. now rewrite lookup_spread2, Hn. }
  split; [exact H1|]. split.
  - intros Hsub. apply H1.
    destruct (lookup newBlocks k) as [b|] eqn:E; [|reflexivity].
    apply lookup_Some_keys in E. apply Hsub in E.
    apply pending_is_unknown in E as [E _]. congruence.
  - intros blk' Hn. now rewrite lookup_spread2, Hn.
Qed.

Lemma merge_keeps_blocks_not_in_answer_witness :
  let answer : Graph := [mkBlock "child" "text" None None] in
  lookup (spread2 rootBlocks answer) "root" = lookup rootBlocks "root" /\
  lookup (spread2 rootBlocks [staleRoot]) "root" = Some (snd staleRoot).
Proof.
  intros answer.
  pose proof (merge_keeps_blocks_not_in_answer (Some "root") rootBlocks answer
                "root" (blk := snd (mkBlock "root" "page" (Some ["child"; "cv1"; "cv2"; "cv3"]) None))
                eq_refl) as (H1 & _ & _).
  pose proof (merge_keeps_blocks_not_in_answer (Some "root") rootBlocks [staleRoot]
                "root" (blk := snd (mkBlock "root" "page" (Some ["child"; "cv1"; "cv2"; "cv3"]) None))
                eq_refl) as (_ & _ & H3).
  split.
  - exact (H1 eq_refl).
  - exact (H3 (snd staleRoot) eq_refl).
Defined.

(** C4 (as stated) fails: the root block is a key of the graph, the
    batch answer of the first round carries a different block under
    "root", and after the expansion the graph holds that other block. *)
Lemma merge_overwrites_counterexample :
  let run := expandBlocks apiOverwriting MAX_API_CALLS (Some "root")
                          (Some "secret") (spread rootBlocks) start in
  exists g',
    fst run = Returned g' /\
    lookup (spread rootBlocks) "root" =
      Some (snd (mkBlock "root" "page"
                         (Some ["child"; "cv1"; "cv2"; "cv3"]) None)) /\
    lookup g' "root" = Some (snd staleRoot) /\
    lookup g' "root" <> lookup (spread rootBlocks) "root" /\
    lookup (spread2 (spread rootBlocks)
                    [mkBlock "child" "text" None None; staleRoot]) "root"
      = Some (snd staleRoot).
Proof.
  vm_compute. eexists. split; [reflexivity|].
  repeat split; try reflexivity. discriminate.
Qed.

(* ================================================================== *)
(** ** Objects built by spreading are in enumeration order *)

Section FreshKeys.
Variable A : Type.
Implicit Types (o g r src : Obj A).

Lemma keys_app o r : keys (o ++ r) = keys o ++ keys r.
Proof. unfold keys. apply map_app. Qed.

(** Storing keys that are new to [g] and are not array indices only
    appends to [g]. *)
Lemma assign_fresh g src :
  (forall k, In k (keys src) -> lookup g k = None /\ array_index k = None) ->
  exists r, assign g src = g ++ r /\
            forall k, In k (keys r) -> In k (keys src).
Proof.
  intros Hfresh. unfold assign.
  assert (G : forall ks r0,
    (forall k, In k ks -> In k (keys src)) ->
    (forall k, In k (keys r0) -> In k (keys src)) ->
    exists r,
      fold_left (fun t k => match lookup src k with
                            | Some v => set t k v
                            | None => t
                            end) ks (g ++ r0) = g ++ r /\
      forall k, In k (keys r) -> In k (keys src)).
  { induction ks as [|k ks IH]; intros r0 Hks Hr0; simpl.
    - now exists r0.
    - assert (Hk : In k (keys src)) by (apply Hks; now left).
      destruct (Hfresh k Hk) as [Hg Hidx].
      assert (Hks' : forall k', In k' ks -> In k' (keys src))
        by (intros k' H'; apply Hks; now right).
      destruct (lookup src k) as [v|]; [|now apply IH].
      unfold set. rewrite Hidx.
      destruct (has (g ++ r0) k) eqn:Hh.
      + rewrite replace_app_absent by assumption.
        apply IH; auto. intros k'. rewrite keys_replace. apply Hr0.
      + rewrite <- app_assoc. apply IH; auto.
        intros k'. rewrite keys_app. intros Hin.
        apply in_app_or in Hin as [Hin|[<-|[]]]; auto. }
  destruct (G (keys src) [] (fun k H => H)) as (r & E & Hr).
  { simpl. contradiction. }
  rewrite app_nil_r in E. now exists r.
Qed.
End FreshKeys.


Section Canonical.
Variable A : Type.
Implicit Types (o p q : Obj A) (k : string) (v : A).

Lemma ordered_snoc ks k :
  ordered ks -> array_index k = None -> ordered (ks ++ [k]).
Proof.
  intros Ho Hk. induction ks as [|h ks IH]; simpl.
  - rewrite Hk. split; [intros k' []|exact I].
  - simpl in Ho. destruct Ho as [Hh Ho]. split; [|now apply IH].
    destruct (array_index h) as [n|].
    + intros k' n' Hin Hk'. apply in_app_or in Hin as [Hin|[<-|[]]].
      * now apply Hh with (k' := k').
      * congruence.
    + intros k' Hin. apply in_app_or in Hin as [Hin|[<-|[]]]; auto.
Qed.

Lemma insert_index_Add n k v o :
  Add k (keys o) (keys (insert_index n k v o)).
Proof.
  induction o as [|[k' v'] o IH]; simpl.
  - constructor.
  - destruct (array_index k') as [n'|].
    + destruct (n <? n')%N; simpl; constructor. exact IH.
    + constructor.
Qed.

Lemma ordered_insert_index n k v o :
  array_index k = Some n ->
  ordered (keys o) -> ordered (keys (insert_index n k v o)).
Proof.
  intros Hk. induction o as [|[k' v'] o IH]; simpl; intros Ho.
  - rewrite Hk. split; [intros k'' n'' []|exact I].
  - destruct Ho as [Hh Ho].
    destruct (array_index k') as [n'|] eqn:Ek'.
    + destruct (N.ltb_spec n n') as [Hlt|Hge]; simpl.
      * rewrite Hk, Ek'. split; [|split; assumption].
        intros k'' n'' [<-|Hin] Hk''.
        -- assert (n'' = n') by congruence. lia.
        -- specialize (Hh k'' n'' Hin Hk''). lia.
      * rewrite Ek'. split; [|now apply IH].
        intros k'' n'' Hin Hk''.
        apply (Add_in (insert_index_Add n k v o)) in Hin.
        destruct Hin as [<-|Hin].
        -- assert (n'' = n) by congruence. lia.
        -- now apply Hh with (k' := k'').
    + simpl. rewrite Hk, Ek'. split; [|split; assumption].
      intros k'' n'' [<-|Hin] Hk''; [congruence|].
      rewrite (Hh k'' Hin) in Hk''. discriminate.
Qed.

Lemma canonical_set o k v : canonical o -> canonical (set o k v).
Proof.
  intros [Hnd Ho]. unfold set. destruct (has o k) eqn:Hh.
  - unfold canonical. rewrite keys_replace. now split.
  - assert (Hout : ~ In k (keys o)).
    { intros Hin. apply has_true in Hin. congruence. }
    destruct (array_index k) as [n|] eqn:Hk.
    + split.
      * apply (NoDup_Add (insert_index_Add n k v o)). now split.
      * now apply ordered_insert_index.
    + split.
      * rewrite keys_app. simpl.
        apply NoDup_Add with (a := k) (l := keys o ++ []).
        -- apply Add_app.
        -- rewrite app_nil_r. now split.
      * rewrite keys_app. now apply ordered_snoc.
Qed.

Lemma canonical_assign o src : canonical o -> canonical (assign o src).
Proof.
  unfold assign. revert o.
  induction (keys src) as [|k ks IH]; intros o Ho; simpl; auto.
  apply IH. destruct (lookup src k); auto. now apply canonical_set.
Qed.

Lemma canonical_spread o : canonical (spread o).
Proof.
  apply canonical_assign. split; simpl; [constructor | exact I].
Qed.

Lemma ordered_before_index l1 k l2 n :
  ordered (l1 ++ k :: l2) -> array_index k = Some n ->
  forall h, In h l1 -> exists m, array_index h = Some m /\ (m <= n)%N.
Proof.
  intros Ho Hk. induction l1 as [|a l1 IH]; intros h Hin; [contradiction|].
  simpl in Ho. destruct Ho as [Ha Ho].
  destruct Hin as [<-|Hin]; [|now apply IH].
  assert (Hkin : In k (l1 ++ k :: l2)) by (apply in_or_app; right; now left).
  destruct (array_index a) as [m|].
  - exists m. split; auto. now apply Ha with (k' := k).
  - rewrite (Ha k Hkin) in Hk. discriminate.
Qed.

Lemma insert_index_last n k v p :
  (forall h, In h (keys p) -> exists m, array_index h = Some m /\ (m <= n)%N) ->
  insert_index n k v p = p ++ [(k, v)].
Proof.
  induction p as [|[h x] p IH]; simpl; intros Hall; auto.
  destruct (Hall h (or_introl eq_refl)) as (m & -> & Hm).
  destruct (N.ltb_spec n m); [lia|].
  rewrite IH; auto.
Qed.

(** Copying a canonical object gives it back. *)
Lemma canonical_enumerated o : canonical o -> enumerated o.
Proof.
  intros [Hnd Ho]. unfold enumerated, spread, assign.
  assert (G : forall q p,
    o = p ++ q ->
    fold_left (fun t k => match lookup o k with
                          | Some v => set t k v
                          | None => t
                          end) (keys q) p = o).
  { induction q as [|[k v] q IH]; intros p E; simpl.
    - now rewrite E, app_nil_r.
    - assert (Hp : lookup p k = None).
      { apply lookup_None_keys. intros Hin.
        rewrite E, keys_app in Hnd. simpl in Hnd.
        apply NoDup_remove_2 in Hnd. apply Hnd.
        apply in_or_app. now left. }
      assert (Hl : lookup o k = Some v).
      { rewrite E, lookup_app, Hp. simpl. now rewrite String.eqb_refl. }
      rewrite Hl.
      assert (Hs : set p k v = p ++ [(k, v)]).
      { unfold set, has. rewrite Hp.
        destruct (array_index k) as [n|] eqn:Hk; auto.
        apply insert_index_last.
        rewrite E, keys_app in Ho. simpl in Ho.
        now apply ordered_before_index with (k := k) (l2 := keys q). }
      rewrite Hs. apply IH. rewrite E, <- app_assoc. reflexivity. }
  apply (G o []). reflexivity.
Qed.

(** The graph the handler starts from, [{ ...baseBlocks }], and every
    later merge are in enumeration order. *)
Lemma spread_enumerated o : enumerated (spread o).
Proof. apply canonical_enumerated, canonical_spread. Qed.

Lemma spread2_enumerated o src : enumerated (spread2 o src).
Proof.
  apply canonical_enumerated. unfold spread2.
  apply canonical_assign, canonical_spread.
Qed.
End Canonical.

(* ================================================================== *)
(** ** A child the batch answer leaves out *)


Lemma filter_filter_implied (A : Type) (p q : A -> bool) (l : list A) :
  (forall x, p x = true -> q x = true) ->
  filter p (filter q l) = filter p l.
Proof.
  intros H. induction l as [|a l IH]; simpl; auto.
  destruct (q a) eqn:Eq; simpl.
  - now rewrite IH.
  - destruct (p a) eqn:Ep; auto. apply H in Ep. congruence.
Qed.

Section Retry.
Variable pageId : option string.
Implicit Types (g r : Graph).

Lemma pendingBlocks_allCandidates g :
  pendingBlocks pageId g =
  firstn MAX_BLOCKS_PER_ITERATION (allCandidates pageId g (keys g)).
Proof. reflexivity. Qed.

(** On the blocks of [g], the candidates in [g ++ r] are those in [g]
    that [g ++ r] still lacks. *)
Lemma allCandidates_extended g r ks :
  (forall k, In k ks -> In k (keys g)) ->
  allCandidates pageId (g ++ r) ks =
  filter (fun i => negb (truthy_at (g ++ r) i)) (allCandidates pageId g ks).
Proof.
  intros Hks. unfold allCandidates. rewrite filter_flat_map.
  induction ks as [|k ks IH]; simpl; auto.
  rewrite IH by (intros k' H'; apply Hks; now right). f_equal.
  destruct (keys_lookup g k (Hks k (or_introl eq_refl))) as [block El].
  rewrite lookup_app, El. unfold candidates.
  destruct (value block) as [v|]; auto.
  destruct (content v) as [ids|]; auto.
  match goal with |- (if ?c then _ else _) = _ => destruct c end; auto.
  symmetry. apply filter_filter_implied.
  intros x Hx. apply negb_true_iff in Hx. apply negb_true_iff.
  unfold truthy_at, has in *. rewrite lookup_app in Hx.
  destruct (lookup g x); [discriminate|].
  apply orb_false_iff in Hx as [_ Hx]. exact Hx.
Qed.

(** An id requested from [g] and missing from the answer is requested
    again from the merged graph. *)
Lemma pending_again g newBlocks x :
  enumerated g ->
  In x (pendingBlocks pageId g) ->
  lookup newBlocks x = None ->
  (forall k, In k (keys newBlocks) ->
             lookup g k = None /\ array_index k = None) ->
  lookup (spread2 g newBlocks) x = None /\
  In x (pendingBlocks pageId (spread2 g newBlocks)).
Proof.
  intros Hen Hx Hmiss Honly.
  destruct (pending_is_unknown _ _ _ Hx) as [Hgx Hinh].
  assert (Hl : lookup (spread2 g newBlocks) x = None)
    by now rewrite lookup_spread2, Hmiss.
  split; [exact Hl|].
  unfold spread2 in *. unfold enumerated in Hen. rewrite Hen in *.
  destruct (assign_fresh g newBlocks Honly) as (r & E & Hr).
  rewrite E in *.
  rewrite pendingBlocks_allCandidates, keys_app.
  unfold allCandidates at 1. rewrite flat_map_app.
  fold (allCandidates pageId (g ++ r) (keys g)).
  rewrite allCandidates_extended by auto.
  apply In_firstn_filter; [|exact Hx].
  unfold truthy_at, has. now rewrite Hl, Hinh.
Qed.
End Retry.

(** Two rounds of the expansion around an id the first answer omits. *)
Lemma retry_rounds :
  forall (W : Type) (api : Collaborators W) (ceiling : Z)
         (pageId : option string) (token : Token)
         (g : Graph) (s : State W) (x : string) (res1 : PageChunk) (w1 : W),
    enumerated g ->
    In x (pendingBlocks pageId g) ->
    apiCallCount s + 1 < ceiling ->
    fetchBlocks api (pendingBlocks pageId g) token (world s)
      = (Returned res1, w1) ->
    lookup (block (recordMap res1)) x = None ->
    (forall k, In k (keys (block (recordMap res1))) ->
               lookup g k = None /\ array_index k = None) ->
    let g1 := spread2 g (block (recordMap res1)) in
    let round1 := CallFetchBlocks (pendingBlocks pageId g) token in
    let round2 := CallFetchBlocks (pendingBlocks pageId g1) token in
    lookup g1 x = None /\
    In x (pendingBlocks pageId g1) /\
    events (snd (expandBlocks api ceiling pageId token g s)) =
      events s ++ [CounterWrite (apiCallCount s + 1); Invoked round1;
                   CounterWrite (apiCallCount s + 1 + 1); Invoked round2] /\
    forall res2 w2,
      fetchBlocks api (pendingBlocks pageId g1) token w1 = (Returned res2, w2) ->
      lookup (block (recordMap res2)) x = None ->
      let g2 := spread2 g1 (block (recordMap res2)) in
      fst (expandBlocks api ceiling pageId token g s) = Returned g2 /\
      lookup g2 x = None.
Proof.
  intros W api ceiling pageId token g s x res1 w1
         Hen Hx Hbudget Hfetch Hmiss Honly g1 round1 round2.
  destruct (@pending_again pageId g (block (recordMap res1)) x
              Hen Hx Hmiss Honly) as [Hl1 Hx1].
  fold g1 in Hl1, Hx1.
  assert (Hp : pendingBlocks pageId g <> [])
    by (intros E; rewrite E in Hx; contradiction).
  assert (Hp1 : pendingBlocks pageId g1 <> [])
    by (intros E; rewrite E in Hx1; contradiction).
  assert (Hrun : expandBlocks api ceiling pageId token g s =
                 match fetchBlocks api (pendingBlocks pageId g1) token w1 with
                 | (Returned res2, w2) =>
                     (Returned (spread2 g1 (block (recordMap res2))),
                      afterCall (afterCall s round1 w1) round2 w2)
                 | (Thrown e, w2) =>
                     (Thrown e, afterCall (afterCall s round1 w1) round2 w2)
                 end).
  { unfold expandBlocks. change (Z.to_nat (MAX_ITERATIONS - 0)) with 2%nat.
    rewrite expandLoop_fetch by (auto; lia). cbv zeta. rewrite Hfetch.
    fold g1. fold round1.
    rewrite expandLoop_fetch by (auto; simpl; lia).
    cbv zeta. fold round2.
    change (world (afterCall s round1 w1)) with w1.
    destruct (fetchBlocks api (pendingBlocks pageId g1) token w1)
      as [[res2|e] w2]; reflexivity. }
  split; [exact Hl1|]. split; [exact Hx1|]. split.
  - rewrite Hrun.
    destruct (fetchBlocks api (pendingBlocks pageId g1) token w1)
      as [[res2|e] w2]; simpl; rewrite <- !app_assoc; reflexivity.
  - intros res2 w2 Hfetch2 Hmiss2 g2. rewrite Hrun, Hfetch2. simpl.
    split; [reflexivity|].
    subst g2. now rewrite lookup_spread2, Hmiss2.
Qed.


Lemma fetchAndExpand_root (W : Type) (api : Collaborators W) (ceiling : Z)
    (req : HandlerRequest) (s : State W) :
  apiCallCount s < ceiling ->
  let pageId := parsePageId api (params_pageId req) in
  let token := notionToken req in
  fetchAndExpand api ceiling req s =
  match fetchPageById api pageId token (world s) with
  | (Returned page, w) =>
      match expandBlocks api ceiling pageId token
              (spread (block (recordMap page)))
              (afterCall s (CallFetchPageById pageId token) w) with
      | (Returned g, s') => (Returned (page, g), s')
      | (Thrown e, s') => (Thrown e, s')
      end
  | (Thrown e, w) => (Thrown e, afterCall s (CallFetchPageById pageId token) w)
  end.
Proof.
  intros Hlt pageId token. unfold fetchAndExpand. fold pageId. fold token.
  unfold bind at 1. rewrite limitedApiCall_enter by assumption.
  unfold callFetchPageById, invoke, entered, afterCall. simpl.
  destruct (fetchPageById api pageId token (world s)) as [[page|e] w];
    [|reflexivity].
  unfold bind, ret.
  match goal with |- context [expandBlocks ?a ?c ?p ?t ?g ?st] =>
    destruct (expandBlocks a c p t g st) as [[g'|e] s']
  end; reflexivity.
Qed.

(** C9 (amended).  Take a request whose root page arrives, and an id
    [x] that the first round asks for.  Let the batch answer come back
    without [x], holding no block under an id the graph already has, and
    no id that is an array-index string.  Then nothing is thrown by the
    merge and the merged graph has no key [x]; [x] is again among the ids
    selected in the second round, and that round is requested: the calls
    up to the end of the expansion are the root fetch and the two
    batches.  When the second answer leaves [x] out too, the expansion is
    over: it returns normally, with a graph that has no key [x], and [x]
    is not asked for a third time. *)
Theorem omitted_child_is_retried_then_dropped :
  forall (W : Type) (api : Collaborators W) (req : HandlerRequest)
         (s : State W) (page res1 : PageChunk) (w0 w1 : W) (x : string),
    let pageId := parsePageId api (params_pageId req) in
    let token := notionToken req in
    let g := spread (block (recordMap page)) in
    let g1 := spread2 g (block (recordMap res1)) in
    let run := fetchAndExpand api MAX_API_CALLS req (reset s) in
    fetchPageById api pageId token (world s) = (Returned page, w0) ->
    In x (pendingBlocks pageId g) ->
    fetchBlocks api (pendingBlocks pageId g) token w0 = (Returned res1, w1) ->
    lookup (block (recordMap res1)) x = None ->
    (forall k, In k (keys (block (recordMap res1))) ->
               lookup g k = None /\ array_index k = None) ->
    lookup g1 x = None /\
    In x (pendingBlocks pageId g1) /\
    calls (events (snd run)) =
      calls (events s) ++
      [CallFetchPageById pageId token;
       CallFetchBlocks (pendingBlocks pageId g) token;
       CallFetchBlocks (pendingBlocks pageId g1) token] /\
    forall res2 w2,
      fetchBlocks api (pendingBlocks pageId g1) token w1 = (Returned res2, w2) ->
      lookup (block (recordMap res2)) x = None ->
      let g2 := spread2 g1 (block (recordMap res2)) in
      fst run = Returned (page, g2) /\ lookup g2 x = None.
Proof.
  intros W api req s page res1 w0 w1 x pageId token g g1 run
         Hroot Hx Hfetch Hmiss Hnew.
  set (s1 := afterCall (reset s) (CallFetchPageById pageId token) w0).
  assert (Hbudget : apiCallCount s1 + 1 < MAX_API_CALLS)
    by (simpl; unfold MAX_API_CALLS; lia).
  destruct (@retry_rounds W api MAX_API_CALLS pageId token g s1 x res1 w1
              (spread_enumerated _) Hx Hbudget Hfetch Hmiss Hnew)
    as (Hl1 & Hx1 & Hev & Hdrop).
  fold g1 in Hl1, Hx1, Hev, Hdrop.
  assert (Hrun : run =
            match expandBlocks api MAX_API_CALLS pageId token g s1 with
            | (Returned g', s') => (Returned (page, g'), s')
            | (Thrown e, s') => (Thrown e, s')
            end).
  { unfold run. rewrite fetchAndExpand_root
      by (simpl; unfold MAX_API_CALLS; lia).
    cbv zeta. fold pageId. fold token.
    change (world (reset s)) with (world s). rewrite Hroot. reflexivity. }
  split; [exact Hl1|]. split; [exact Hx1|]. split.
  - rewrite Hrun.
    destruct (expandBlocks api MAX_API_CALLS pageId token g s1)
      as [[g'|e] s'] eqn:E; simpl in *; rewrite Hev;
      unfold s1, afterCall, reset; simpl;
      rewrite !calls_app; simpl; rewrite <- !app_assoc; reflexivity.
  - intros res2 w2 Hfetch2 Hmiss2 g2.
    destruct (Hdrop res2 w2 Hfetch2 Hmiss2) as [Hret Hl2].
    split; [|exact Hl2].
    rewrite Hrun.
    destruct (expandBlocks api MAX_API_CALLS pageId token g s1)
      as [[g'|e] s']; simpl in *; [now inversion Hret | discriminate].
Qed.

Lemma omitted_child_is_retried_then_dropped_witness :
  let g1 : Graph := ghostRoot ++ [mkBlock "child" "text" None None] in
  let run := fetchAndExpand apiForgetful MAX_API_CALLS (request "root")
                            (reset start) in
  pendingBlocks (Some "root") (spread ghostRoot) = ["child"; "ghost"] /\
  lookup g1 "ghost" = None /\
  In "ghost" (pendingBlocks (Some "root") g1) /\
  calls (events (snd run)) =
    [CallFetchPageById (Some "root") (Some "secret");
     CallFetchBlocks ["child"; "ghost"] (Some "secret");
     CallFetchBlocks ["ghost"] (Some "secret")] /\
  fst run = Returned (mkChunk ghostRoot None None, g1) /\
  lookup g1 "ghost" = None.
Proof.
  intros g1 run.
  assert (Hnew :
    forall k,
      In k (keys (block (recordMap
              (mkChunk [mkBlock "child" "text" None None] None None)))) ->
      lookup (spread (block (recordMap (mkChunk ghostRoot None None)))) k = None
      /\ array_index k = None).
  { intros k [<-|[]]. split; reflexivity. }
  assert (Hx : In "ghost"
                 (pendingBlocks (parsePageId apiForgetful
                                   (params_pageId (request "root")))
                    (spread (block (recordMap (mkChunk ghostRoot None None))))))
    by (right; now left).
  destruct (@omitted_child_is_retried_then_dropped
              unit apiForgetful (request "root") start
              (mkChunk ghostRoot None None)
              (mkChunk [mkBlock "child" "text" None None] None None)
              tt tt "ghost" eq_refl Hx eq_refl eq_refl Hnew)
    as (H1 & H2 & H3 & H4).
  destruct (H4 (mkChunk [] None None) tt eq_refl eq_refl) as [H5 H6].
  split; [reflexivity|]. split; [exact H1|]. split; [exact H2|].
  split; [exact H3|]. split; [exact H5 | exact H6].
Defined.

(* ================================================================== *)
(** ** Whole runs: calls, tokens and the origin of errors *)

Section PhaseFacts.
Variable W : Type.
Variable Q : JsError -> Prop.
Variable token : Token.
Implicit Types (s : State W).

Lemma phase_ret A (a : A) n s : phase Q token n (ret (W := W) a) s.
Proof.
  exists []. simpl. rewrite app_nil_r.
  repeat split; auto; try lia. discriminate.
Qed.

Lemma phase_weaken A (c : M W A) n m s :
  (n <= m)%nat -> phase Q token n c s -> phase Q token m c s.
Proof.
  intros Hnm (evs & E & Hn & Ht & Hc & Hq).
  exists evs. repeat split; auto; lia.
Qed.

Lemma phase_bind A B (c : M W A) (k : A -> M W B) n1 n2 s :
  phase Q token n1 c s ->
  (forall a s1, c s = (Returned a, s1) -> phase Q token n2 (k a) s1) ->
  phase Q token (n1 + n2) (bind c k) s.
Proof.
  intros (e1 & E1 & Hn1 & Ht1 & Hc1 & Hq1) Hk. unfold phase, bind.
  destruct (c s) as [[a|e] s1] eqn:Ec; simpl in *.
  - destruct (Hk a s1 eq_refl) as (e2 & E2 & Hn2 & Ht2 & Hc2 & Hq2).
    exists (e1 ++ e2). repeat split.
    + now rewrite E2, E1, app_assoc.
    + rewrite calls_app, length_app. lia.
    + rewrite calls_app. apply Forall_app. now split.
    + lia.
    + lia.
    + exact Hq2.
  - exists e1. repeat split; auto; try lia.
    intros e0 H. inversion H. subst e0. now apply Hq1.
Qed.

Lemma phase_readCounter s : phase Q token 0 (readCounter (W := W)) s.
Proof.
  exists []. simpl. rewrite app_nil_r.
  repeat split; auto; try lia. discriminate.
Qed.

Lemma phase_consoleLog text s : phase Q token 0 (consoleLog (W := W) text) s.
Proof.
  exists [ConsoleLog text]. simpl.
  repeat split; auto; try lia. discriminate.
Qed.

Lemma phase_throw A e n s :
  Q e -> phase Q token n (throw (W := W) (A := A) e) s.
Proof.
  intros He. exists []. simpl. rewrite app_nil_r.
  repeat split; auto; try lia. intros e0 H. inversion H. now subst e0.
Qed.

(** A guarded operation is one phase step, provided the guard lets it
    through or its own error is allowed. *)
Lemma phase_limitedApiCall ceiling T (f : M W T) label s :
  operation Q token f ->
  apiCallCount s < ceiling \/
    Q (Error ("Too many API calls: " ++ label)%string) ->
  phase Q token 1 (limitedApiCall ceiling f label) s.
Proof.
  intros Hf Hgo.
  destruct (Z.le_gt_cases ceiling (apiCallCount s)) as [Hge|Hlt].
  - destruct Hgo as [Hlt|Hq]; [lia|].
    unfold phase. rewrite limitedApiCall_exhausted by assumption.
    exists []. simpl. rewrite app_nil_r.
    repeat split; auto; try lia. intros e H. inversion H. now subst e.
  - unfold phase. rewrite limitedApiCall_enter by lia.
    destruct (Hf (entered s)) as (evs & E & Hn & Ht & Hc & Hq).
    simpl in E, Hc.
    exists (CounterWrite (apiCallCount s + 1) :: evs). repeat split.
    + rewrite E, <- app_assoc. reflexivity.
    + exact Hn.
    + exact Ht.
    + lia.
    + lia.
    + exact Hq.
Qed.
End PhaseFacts.

Section RoutePhases.
Variable W : Type.
Variable api : Collaborators W.
Variable ceiling : Z.
Variable Q : JsError -> Prop.
Variable token : Token.
Hypothesis Q_rejected : forall e, rejectedBy api e -> Q e.
Hypothesis Q_engine : forall e, In e engineErrors -> Q e.
Implicit Types (s : State W).

Lemma operation_invoke A (c : Call) (f : W -> Outcome A * W) :
  callToken c = token ->
  (forall w e, fst (f w) = Thrown e -> Q e) ->
  operation Q token (invoke c f).
Proof.
  intros Ht Hq s. exists [Invoked c]. unfold invoke.
  specialize (Hq (world s)).
  destruct (f (world s)) as [r w]. simpl in *.
  repeat split; auto.
Qed.

Lemma operation_callFetchPageById pageId :
  operation Q token (callFetchPageById api pageId token).
Proof.
  apply operation_invoke; auto.
  intros w e H. apply Q_rejected. left. now exists pageId, token, w.
Qed.

Lemma operation_callFetchBlocks ids :
  operation Q token (callFetchBlocks api ids token).
Proof.
  intros s. exists [Invoked (CallFetchBlocks ids token)].
  unfold callFetchBlocks, bind, invoke, ret.
  destruct (fetchBlocks api ids token (world s)) as [[r|e] w] eqn:E; simpl.
  - repeat split; auto. discriminate.
  - repeat split; auto. intros e0 H. inversion H. subst e0.
    apply Q_rejected. right. left. exists ids, token, (world s).
    now rewrite E.
Qed.

Lemma operation_callGetTableData coll collView :
  operation Q token (callGetTableData api coll collView token).
Proof.
  destruct collView as [cv|]; simpl.
  - apply operation_invoke; auto.
    intros w e H. apply Q_rejected. right. right.
    now exists coll, (view_id (view_value cv)), token, true, w.
  - intros s. exists []. simpl. rewrite app_nil_r.
    repeat split; auto. intros e H. inversion H.
    apply Q_engine. right. now left.
Qed.

Lemma phase_expandLoop pageId rounds :
  forall iteration g s,
    phase Q token rounds
      (expandLoop api ceiling pageId token rounds iteration g) s.
Proof.
  induction rounds as [|rounds IH]; intros iteration g s.
  - apply phase_ret.
  - cbn [expandLoop].
    destruct (List.length (pendingBlocks pageId g) =? 0)%nat;
      [apply phase_ret|].
    apply (@phase_bind W Q token Z Graph _ _ 0 (S rounds));
      [apply phase_readCounter|].
    intros n s1 Hn. inversion Hn. subst n s1.
    destruct (Z.leb_spec ceiling (apiCallCount s)) as [Hge|Hlt].
    + apply (@phase_bind W Q token unit Graph _ _ 0 (S rounds));
        [apply phase_consoleLog|].
      intros _ s1 _. apply phase_ret.
    + apply (@phase_bind W Q token Graph Graph _ _ 1 rounds).
      * apply phase_limitedApiCall;
          [apply operation_callFetchBlocks | now left].
      * intros newBlocks s1 _. apply IH.
Qed.

Lemma phase_annotate g b coll views table s :
  phase Q token 0 (annotate (W := W) g b coll views table) s.
Proof.
  unfold annotate.
  destruct (lookup g b) as [blk|].
  - destruct (value blk) as [v|].
    + destruct (view_ids v).
      * apply phase_ret.
      * apply phase_throw, Q_engine. simpl. auto.
    + apply phase_throw, Q_engine. simpl. auto.
  - apply phase_throw, Q_engine. destruct (inherited b); simpl; auto.
Qed.

Lemma phase_attachCollection g b collPage s :
  phase Q token 1 (attachCollection api ceiling token g b collPage) s.
Proof.
  unfold attachCollection.
  destruct (rm_collection (recordMap collPage)) as [collMap|];
    [|apply phase_ret].
  destruct (first_value collMap) as [coll|]; [|apply phase_ret].
  destruct (rm_collection_view (recordMap collPage)) as [views|].
  2:{ apply phase_throw, Q_engine. now left. }
  apply (@phase_bind W Q token Z Graph _ _ 0 1); [apply phase_readCounter|].
  intros n s1 Hn. inversion Hn. subst n s1.
  destruct (Z.ltb_spec (apiCallCount s) ceiling) as [Hlt|Hge];
    [|apply phase_ret].
  apply (@phase_bind W Q token TableData Graph _ _ 1 0).
  - apply phase_limitedApiCall;
      [apply operation_callGetTableData | now left].
  - intros table s1 _. apply phase_annotate.
Qed.

Lemma phase_resolveCollection page g s :
  phase Q token 2 (resolveCollection api ceiling token page g) s.
Proof.
  unfold resolveCollection.
  apply (@phase_bind W Q token Z Graph _ _ 0 2); [apply phase_readCounter|].
  intros n s1 Hn. inversion Hn. subst n s1.
  destruct (isSome (firstOf (rm_collection (recordMap page))) &&
            isSome (firstOf (rm_collection_view (recordMap page))))%bool;
    simpl; [|apply phase_ret].
  destruct (Z.ltb_spec (apiCallCount s) ceiling) as [Hlt|Hge];
    [|apply phase_ret].
  destruct (pendingCollections g) as [|b rest]; [apply phase_ret|].
  apply (@phase_bind W Q token PageChunk Graph _ _ 1 1).
  - apply phase_limitedApiCall;
      [apply operation_callFetchPageById | now left].
  - intros collPage s1 _. apply phase_attachCollection.
Qed.
End RoutePhases.

Section RunPhases.
Variable W : Type.
Variable api : Collaborators W.
Variable ceiling : Z.
Variable Q : JsError -> Prop.
Hypothesis Q_rejected : forall e, rejectedBy api e -> Q e.
Hypothesis Q_engine : forall e, In e engineErrors -> Q e.
Hypothesis Q_first :
  0 < ceiling \/ Q (Error "Too many API calls: while fetching initial page").

Lemma phase_fetchAndExpand req (s : State W) :
  apiCallCount s = 0 ->
  phase Q (notionToken req) 3 (fetchAndExpand api ceiling req) s.
Proof.
  intros Hz. unfold fetchAndExpand.
  apply (@phase_bind W Q (notionToken req) PageChunk _ _ _ 1 2).
  - apply phase_limitedApiCall.
    + now apply operation_callFetchPageById.
    + destruct Q_first as [H|H]; [left; lia | now right].
  - intros page s1 _.
    apply (@phase_bind W Q (notionToken req) Graph _ _ _ 2 0).
    + unfold expandBlocks. change (Z.to_nat (MAX_ITERATIONS - 0)) with 2%nat.
      now apply phase_expandLoop.
    + intros g s2 _. apply phase_ret.
Qed.

(** The whole [try] block, counted from the reset. *)
Lemma tryBlock_phase req (s : State W) :
  let out := tryBlock api ceiling req s in
  exists evs,
    events (snd out) = events s ++ CounterWrite 0 :: evs /\
    (List.length (calls evs) <= 5)%nat /\
    Forall (fun call => callToken call = notionToken req) (calls evs) /\
    0 <= apiCallCount (snd out) <= 5 /\
    forall e, fst out = Thrown e -> Q e.
Proof.
  set (rest := bind (fetchAndExpand api ceiling req) (fun pg =>
               bind (resolveCollection api ceiling (notionToken req)
                                       (fst pg) (snd pg)) (fun allBlocks =>
               ret (createResponse (GraphPayload allBlocks) None None)))).
  assert (H : phase Q (notionToken req) (3 + (2 + 0)) rest (reset s)).
  { apply phase_bind; [now apply phase_fetchAndExpand|].
    intros pg s1 _. apply phase_bind; [now apply phase_resolveCollection|].
    intros g s2 _. apply phase_ret. }
  destruct H as (evs & E & Hn & Ht & Hc & Hq).
  change (tryBlock api ceiling req s) with (rest (reset s)).
  cbv zeta. exists evs.
  change (events (reset s)) with (events s ++ [CounterWrite 0]) in E.
  change (apiCallCount (reset s)) with 0 in Hc.
  repeat split; auto; try lia.
  rewrite E, <- app_assoc. reflexivity.
Qed.
End RunPhases.

Lemma pageRoute_events (W : Type) (api : Collaborators W) (ceiling : Z)
    (req : HandlerRequest) (s : State W) :
  apiCallCount (snd (pageRoute api ceiling req s)) =
    apiCallCount (snd (tryBlock api ceiling req s)) /\
  exists tail,
    events (snd (pageRoute api ceiling req s)) =
      events (snd (tryBlock api ceiling req s)) ++ tail /\
    calls tail = [].
Proof.
  unfold pageRoute.
  destruct (tryBlock api ceiling req s) as [[r|e] s1]; simpl.
  - split; auto. exists []. now rewrite app_nil_r.
  - split; auto. now exists [ConsoleError "Error in pageRoute:" e].
Qed.

(** X3.  One request costs at most five collaborator calls: whatever the
    ceiling, the request, the collaborators and the state before, the
    events of a [pageRoute] run hold at most five calls (the root page,
    two batches, the collection page, the table data). *)
Theorem pageRoute_at_most_five_calls :
  forall (W : Type) (api : Collaborators W) (ceiling : Z)
         (req : HandlerRequest) (s : State W),
    exists evs,
      events (snd (pageRoute api ceiling req s)) = events s ++ evs /\
      (List.length (calls evs) <= 5)%nat.
Proof.
  intros W api ceiling req s.
  destruct (@tryBlock_phase W api ceiling (fun _ => True)
              (fun _ _ => I) (fun _ _ => I) (or_intror I) req s)
    as (evs & E & Hn & _ & _ & _).
  destruct (pageRoute_events api ceiling req s) as (_ & tail & Et & Hcalls).
  exists (CounterWrite 0 :: evs ++ tail). split.
  - rewrite Et, E, <- app_assoc. reflexivity.
  - simpl. rewrite calls_app, Hcalls, app_nil_r. exact Hn.
Qed.

(** X4.  Every collaborator call of a request is made with the token of
    that request, [req.notionToken]: no call goes out with another token
    or without the one given. *)
Theorem pageRoute_calls_carry_request_token :
  forall (W : Type) (api : Collaborators W) (ceiling : Z)
         (req : HandlerRequest) (s : State W),
    exists evs,
      events (snd (pageRoute api ceiling req s)) = events s ++ evs /\
      Forall (fun call => callToken call = notionToken req) (calls evs).
Proof.
  intros W api ceiling req s.
  destruct (@tryBlock_phase W api ceiling (fun _ => True)
              (fun _ _ => I) (fun _ _ => I) (or_intror I) req s)
    as (evs & E & _ & Ht & _ & _).
  destruct (pageRoute_events api ceiling req s) as (_ & tail & Et & Hcalls).
  exists (CounterWrite 0 :: evs ++ tail). split.
  - rewrite Et, E, <- app_assoc. reflexivity.
  - simpl. rewrite calls_app, Hcalls, app_nil_r. exact Ht.
Qed.

Lemma engineErrors_are_internal (e : JsError) :
  In e engineErrors -> statusOf (errorMessageOf e) = 500.
Proof.
  intros [<-|[<-|[<-|[<-|[]]]]]; reflexivity.
Qed.

(** X5.  With a positive ceiling, so with the source's 45, the budget
    error of [limitedApiCall] is never raised inside [pageRoute]: every
    guarded call either comes first, at counter 0, or follows a check of
    the counter.  An error that leaves the [try] block is a rejection of
    a collaborator or one of the engine's [TypeError]s; and a response
    with status 429 is always caused by a collaborator whose error
    message, taken as it is, contains one of the two markers. *)
Theorem pageRoute_budget_error_unreachable :
  forall (W : Type) (api : Collaborators W) (ceiling : Z)
         (req : HandlerRequest) (s : State W),
    0 < ceiling ->
    (forall e s1,
        tryBlock api ceiling req s = (Thrown e, s1) ->
        rejectedBy api e \/ In e engineErrors) /\
    (statusCode (fst (pageRoute api ceiling req s)) = Some 429 ->
     exists e,
       rejectedBy api e /\
       payload (fst (pageRoute api ceiling req s)) = ErrorPayload (message e) /\
       (includes "Too many API calls" (message e) ||
        includes "Too many subrequests" (message e))%bool = true).
Proof.
  intros W api ceiling req s Hpos.
  destruct (@tryBlock_phase W api ceiling
              (fun e => rejectedBy api e \/ In e engineErrors)
              (fun e H => or_introl H) (fun e H => or_intror H)
              (or_introl Hpos) req s)
    as (evs & _ & _ & _ & _ & Hq).
  split.
  - intros e s1 H. apply Hq. now rewrite H.
  - unfold pageRoute.
    destruct (tryBlock api ceiling req s) as [[r|e] s1] eqn:Et; simpl in *.
    + unfold tryBlock, bind, ret in Et.
      repeat match type of Et with
             | context [match ?c with _ => _ end] =>
                 destruct c as [[?|?] ?]; try discriminate
             end.
      inversion Et. subst r. simpl. discriminate.
    + intros Hs. inversion Hs as [H429].
      destruct (Hq e eq_refl) as [Hrej|Heng].
      * exists e. split; [exact Hrej|].
        unfold errorMessageOf in *.
        destruct (String.eqb (message e) "") eqn:Em.
        -- vm_compute in H429. discriminate.
        -- split; [reflexivity|]. unfold statusOf in H429.
           destruct (includes "Too many API calls" (message e) ||
                     includes "Too many subrequests" (message e))%bool;
             [reflexivity | discriminate].
      * rewrite (@engineErrors_are_internal e Heng) in H429. discriminate.
Qed.

Lemma pageRoute_budget_error_unreachable_witness :
  rejectedBy apiOverQuota (Error "Too many subrequests.") /\
  statusCode (fst (pageRoute apiOverQuota MAX_API_CALLS (request "root") start))
    = Some 429 /\
  exists e,
    rejectedBy apiOverQuota e /\
    payload (fst (pageRoute apiOverQuota MAX_API_CALLS (request "root") start))
      = ErrorPayload (message e) /\
    (includes "Too many API calls" (message e) ||
     includes "Too many subrequests" (message e))%bool = true.
Proof.
  assert (Hpos : 0 < MAX_API_CALLS) by (unfold MAX_API_CALLS; lia).
  destruct (pageRoute_budget_error_unreachable apiOverQuota (request "root")
              start Hpos) as [Horigin Hstatus].
  split.
  - destruct (Horigin _ _ eq_refl) as [H|H]; [exact H|].
    exfalso. simpl in H. intuition discriminate.
  - split; [reflexivity|]. exact (Hstatus eq_refl).
Defined.

(* ================================================================== *)
(** ** Whole runs: how a request ends *)

(** X1.  A request does not see the counter an earlier request left
    behind: started with any other value of [apiCallCount], [pageRoute]
    gives the same response and ends in the same state. *)
Theorem pageRoute_ignores_previous_counter :
  forall (W : Type) (api : Collaborators W) (ceiling : Z)
         (req : HandlerRequest) (s : State W) (leftover : Z),
    pageRoute api ceiling req (mkState leftover (world s) (events s)) =
    pageRoute api ceiling req s.
Proof.
  intros W api ceiling req s leftover.
  unfold pageRoute. rewrite !tryBlock_phases. reflexivity.
Qed.

(** X2.  When the fetch of the root page is rejected, nothing else is
    asked of the remote API: the run consists of that one call, the
    counter ends at 1, and the response is the error payload made from
    the rejection (its message, or the default text if that is empty),
    classified by that message. *)
Theorem root_fetch_failure_ends_request :
  forall (W : Type) (api : Collaborators W) (ceiling : Z)
         (req : HandlerRequest) (s : State W) (e : JsError) (w : W),
    0 < ceiling ->
    fetchPageById api (parsePageId api (params_pageId req)) (notionToken req)
                  (world s) = (Thrown e, w) ->
    let call := CallFetchPageById (parsePageId api (params_pageId req))
                                  (notionToken req) in
    pageRoute api ceiling req s =
      (createResponse (ErrorPayload (errorMessageOf e)) (Some [])
                      (Some (statusOf (errorMessageOf e))),
       mkState 1 w (events s ++ [CounterWrite 0; CounterWrite 1; Invoked call;
                                 ConsoleError "Error in pageRoute:" e])).
Proof.
  intros W api ceiling req s e w Hpos Hfetch call.
  unfold pageRoute. rewrite tryBlock_phases.
  rewrite fetchAndExpand_root by (simpl; lia). cbv zeta.
  change (world (reset s)) with (world s). rewrite Hfetch.
  unfold emit, afterCall, reset. simpl. rewrite <- !app_assoc. reflexivity.
Qed.

Lemma root_fetch_failure_ends_request_witness :
  pageRoute apiOverQuota MAX_API_CALLS (request "root") start =
    (createResponse (ErrorPayload "Too many subrequests.") (Some []) (Some 429),
     mkState 1 tt
       [CounterWrite 0; CounterWrite 1;
        Invoked (CallFetchPageById (Some "root") (Some "secret"));
        ConsoleError "Error in pageRoute:" (Error "Too many subrequests.")]).
Proof.
  assert (Hpos : 0 < MAX_API_CALLS) by (unfold MAX_API_CALLS; lia).
  exact (@root_fetch_failure_ends_request unit apiOverQuota MAX_API_CALLS
           (request "root") start (Error "Too many subrequests.") tt
           Hpos eq_refl).
Defined.

Section Endings.
Variable W : Type.
Variable api : Collaborators W.
Variable ceiling : Z.
Implicit Types (s : State W) (g : Graph).

Lemma resolveCollection_idle token page g s :
  firstOf (rm_collection (recordMap page)) = None \/
  firstOf (rm_collection_view (recordMap page)) = None \/
  pendingCollections g = [] ->
  resolveCollection api ceiling token page g s = (Returned g, s).
Proof.
  intros H. unfold resolveCollection, bind, readCounter.
  destruct H as [H|[H|H]]; rewrite H; simpl.
  - reflexivity.
  - now rewrite andb_false_r.
  - match goal with |- (if ?c then _ else _) _ = _ => destruct c end;
      reflexivity.
Qed.

Lemma pageRoute_of_phases req s page g s1 r s2 :
  fetchAndExpand api ceiling req (reset s) = (Returned (page, g), s1) ->
  resolveCollection api ceiling (notionToken req) page g s1 = (r, s2) ->
  pageRoute api ceiling req s =
  match r with
  | Returned g' => (createResponse (GraphPayload g') None None, s2)
  | Thrown e =>
      (createResponse (ErrorPayload (errorMessageOf e)) (Some [])
                      (Some (statusOf (errorMessageOf e))),
       emit (ConsoleError "Error in pageRoute:" e) s2)
  end.
Proof.
  intros Hf Hr. unfold pageRoute. rewrite tryBlock_phases, Hf. simpl.
  rewrite Hr. destruct r; reflexivity.
Qed.

(** The resolver from the answer for the collection page to the answer
    for the table data. *)
Lemma attachCollection_table token g b collPage s collMap views :
  rm_collection (recordMap collPage) = Some collMap ->
  rm_collection_view (recordMap collPage) = Some views ->
  apiCallCount s < ceiling ->
  forall coll, first_value collMap = Some coll ->
  attachCollection api ceiling token g b collPage s =
  match first_value views with
  | None => (Thrown (TypeError_read "value"), entered s)
  | Some cv =>
      let call := CallGetTableData coll (view_id (view_value cv)) token true in
      match getTableData api coll (view_id (view_value cv)) token true
                         (world s) with
      | (Returned table, w) =>
          annotate g b coll views table (afterCall s call w)
      | (Thrown e, w) => (Thrown e, afterCall s call w)
      end
  end.
Proof.
  intros Hc Hv Hlt coll Hcoll. unfold attachCollection.
  rewrite Hc, Hcoll, Hv. unfold bind at 1. unfold readCounter.
  destruct (Z.ltb_spec (apiCallCount s) ceiling); [|lia].
  unfold bind at 1. rewrite limitedApiCall_enter by assumption.
  unfold callGetTableData.
  destruct (first_value views) as [cv|]; [|reflexivity].
  unfold invoke, entered, afterCall. simpl.
  destruct (getTableData api coll (view_id (view_value cv)) token true
                         (world s)) as [[table|e] w]; reflexivity.
Qed.
End Endings.

(** X6.  Without something to resolve the request ends with the
    expansion: when the root page's record map has no first collection,
    or no first collection view, or the expanded graph has no
    collection-view block, [pageRoute] returns the expanded graph as it
    is, in the state the expansion left (no further call, no change of
    the counter). *)
Theorem pageRoute_without_collection :
  forall (W : Type) (api : Collaborators W) (ceiling : Z)
         (req : HandlerRequest) (s s1 : State W)
         (page : PageChunk) (g : Graph),
    fetchAndExpand api ceiling req (reset s) = (Returned (page, g), s1) ->
    firstOf (rm_collection (recordMap page)) = None \/
    firstOf (rm_collection_view (recordMap page)) = None \/
    pendingCollections g = [] ->
    pageRoute api ceiling req s =
      (createResponse (GraphPayload g) None None, s1).
Proof.
  intros W api ceiling req s s1 page g Hf Hnone.
  apply (pageRoute_of_phases api ceiling req s Hf
           (resolveCollection_idle api ceiling (notionToken req) page g s1 Hnone)).
Qed.

Lemma pageRoute_without_collection_witness :
  let g1 : Graph := ghostRoot ++ [mkBlock "child" "text" None None] in
  let s1 : State unit :=
    mkState 3 tt
      [CounterWrite 0; CounterWrite 1;
       Invoked (CallFetchPageById (Some "root") (Some "secret"));
       CounterWrite 2;
       Invoked (CallFetchBlocks ["child"; "ghost"] (Some "secret"));
       CounterWrite 3;
       Invoked (CallFetchBlocks ["ghost"] (Some "secret"))] in
  pageRoute apiForgetful MAX_API_CALLS (request "root") start =
    (createResponse (GraphPayload g1) None None, s1).
Proof.
  intros g1 s1.
  assert (Hf : fetchAndExpand apiForgetful MAX_API_CALLS (request "root")
                 (reset start)
               = (Returned (mkChunk ghostRoot None None, g1), s1))
    by (vm_compute; reflexivity).
  exact (@pageRoute_without_collection unit apiForgetful MAX_API_CALLS
           (request "root") start s1 (mkChunk ghostRoot None None) g1 Hf
           (or_introl eq_refl)).
Defined.

(** X7.  A page that arrives complete is answered with one call: when
    the root page's blocks (an object in enumeration order) leave no
    candidate to fetch and there is nothing to resolve, the response is
    the block map of the root page itself, the only call is the root
    fetch, and the counter ends at 1. *)
Theorem complete_page_is_echoed :
  forall (W : Type) (api : Collaborators W) (ceiling : Z)
         (req : HandlerRequest) (s : State W) (page : PageChunk) (w : W),
    let pageId := parsePageId api (params_pageId req) in
    let baseBlocks := block (recordMap page) in
    0 < ceiling ->
    fetchPageById api pageId (notionToken req) (world s) = (Returned page, w) ->
    enumerated baseBlocks ->
    pendingBlocks pageId baseBlocks = [] ->
    firstOf (rm_collection (recordMap page)) = None \/
    firstOf (rm_collection_view (recordMap page)) = None \/
    pendingCollections baseBlocks = [] ->
    pageRoute api ceiling req s =
      (createResponse (GraphPayload baseBlocks) None None,
       mkState 1 w
         (events s ++ [CounterWrite 0; CounterWrite 1;
                       Invoked (CallFetchPageById pageId (notionToken req))])).
Proof.
  intros W api ceiling req s page w pageId baseBlocks Hpos Hfetch Hen Hp Hnone.
  assert (Hf : fetchAndExpand api ceiling req (reset s) =
               (Returned (page, baseBlocks),
                afterCall (reset s)
                  (CallFetchPageById pageId (notionToken req)) w)).
  { rewrite fetchAndExpand_root by (simpl; lia). cbv zeta.
    fold pageId. change (world (reset s)) with (world s). rewrite Hfetch.
    fold baseBlocks. unfold enumerated in Hen. rewrite Hen.
    unfold expandBlocks. change (Z.to_nat (MAX_ITERATIONS - 0)) with 2%nat.
    rewrite expandLoop_fixpoint by assumption. reflexivity. }
  rewrite (pageRoute_of_phases api ceiling req s Hf
             (resolveCollection_idle api ceiling (notionToken req) page
                baseBlocks _ Hnone)).
  unfold afterCall, reset. simpl. rewrite <- !app_assoc. reflexivity.
Qed.

Lemma complete_page_is_echoed_witness :
  pageRoute apiSelfContained MAX_API_CALLS (request "root") start =
    (createResponse (GraphPayload graphWithLink) None None,
     mkState 1 tt
       [CounterWrite 0; CounterWrite 1;
        Invoked (CallFetchPageById (Some "root") (Some "secret"))]).
Proof.
  assert (Hpos : 0 < MAX_API_CALLS) by (unfold MAX_API_CALLS; lia).
  exact (@complete_page_is_echoed unit apiSelfContained MAX_API_CALLS
           (request "root") start (mkChunk graphWithLink None None) tt
           Hpos eq_refl eq_refl eq_refl (or_introl eq_refl)).
Defined.

(** X8.  When the page fetched for the collection-view block holds no
    collection (the map is absent or empty), the resolver stops without
    an error: the response is the expanded graph, unannotated, and the
    fetch of that page is the last call. *)
Theorem collection_page_without_collection_is_ignored :
  forall (W : Type) (api : Collaborators W) (ceiling : Z)
         (req : HandlerRequest) (s s1 : State W) (page collPage : PageChunk)
         (g : Graph) (b : string) (rest : list string) (w2 : W),
    fetchAndExpand api ceiling req (reset s) = (Returned (page, g), s1) ->
    firstOf (rm_collection (recordMap page)) <> None ->
    firstOf (rm_collection_view (recordMap page)) <> None ->
    apiCallCount s1 < ceiling ->
    pendingCollections g = b :: rest ->
    fetchPageById api (Some b) (notionToken req) (world s1)
      = (Returned collPage, w2) ->
    firstOf (rm_collection (recordMap collPage)) = None ->
    pageRoute api ceiling req s =
      (createResponse (GraphPayload g) None None,
       afterCall s1 (CallFetchPageById (Some b) (notionToken req)) w2).
Proof.
  intros W api ceiling req s s1 page collPage g b rest w2
         Hf Hc Hv Hlt Hp Hfetch Hnone.
  assert (Hr : resolveCollection api ceiling (notionToken req) page g s1 =
               (Returned g,
                afterCall s1 (CallFetchPageById (Some b) (notionToken req)) w2)).
  { rewrite resolveCollection_fetch with (b := b) (rest := rest) by assumption.
    rewrite Hfetch. unfold attachCollection. unfold firstOf in Hnone.
    destruct (rm_collection (recordMap collPage)) as [collMap|];
      [|reflexivity].
    now rewrite Hnone. }
  apply (pageRoute_of_phases api ceiling req s Hf Hr).
Qed.

Lemma collection_page_without_collection_is_ignored_witness :
  pageRoute (apiWithCollection collectionlessPage) MAX_API_CALLS
            (request "root") start =
    (createResponse (GraphPayload expandedBlocks) None None,
     afterCall afterExpansion
               (CallFetchPageById (Some "cv1") (Some "secret")) tt).
Proof.
  assert (Hf : fetchAndExpand (apiWithCollection collectionlessPage)
                 MAX_API_CALLS (request "root") (reset start)
               = (Returned (rootPage, expandedBlocks), afterExpansion))
    by (vm_compute; reflexivity).
  assert (Hlt : apiCallCount afterExpansion < MAX_API_CALLS)
    by (simpl; unfold MAX_API_CALLS; lia).
  assert (Hc : firstOf (rm_collection (recordMap rootPage)) <> None)
    by discriminate.
  assert (Hv : firstOf (rm_collection_view (recordMap rootPage)) <> None)
    by discriminate.
  exact (@collection_page_without_collection_is_ignored
           unit (apiWithCollection collectionlessPage) MAX_API_CALLS
           (request "root") start afterExpansion rootPage collectionlessPage
           expandedBlocks "cv1" [] tt Hf Hc Hv Hlt eq_refl eq_refl eq_refl).
Defined.

(** X9.  When the collection page holds a collection but its
    [collection_view] map is empty, the guarded table-data call fails on
    the read of [collView.value] before [getTableData] is reached: the
    counter has been raised for it, so it ends two above its value after
    the expansion although only one more call was made, and the response
    is an error of status 500. *)
Theorem empty_view_map_spends_a_slot :
  forall (W : Type) (api : Collaborators W) (ceiling : Z)
         (req : HandlerRequest) (s s1 : State W) (page collPage : PageChunk)
         (g : Graph) (b : string) (rest : list string) (w2 : W)
         (collMap : Obj CollectionType),
    fetchAndExpand api ceiling req (reset s) = (Returned (page, g), s1) ->
    firstOf (rm_collection (recordMap page)) <> None ->
    firstOf (rm_collection_view (recordMap page)) <> None ->
    apiCallCount s1 + 1 < ceiling ->
    pendingCollections g = b :: rest ->
    fetchPageById api (Some b) (notionToken req) (world s1)
      = (Returned collPage, w2) ->
    rm_collection (recordMap collPage) = Some collMap ->
    collMap <> [] ->
    rm_collection_view (recordMap collPage) = Some [] ->
    let run := pageRoute api ceiling req s in
    fst run =
      createResponse
        (ErrorPayload "Cannot read properties of undefined (reading 'value')")
        (Some []) (Some 500) /\
    apiCallCount (snd run) = apiCallCount s1 + 2 /\
    calls (events (snd run)) =
      calls (events s1) ++ [CallFetchPageById (Some b) (notionToken req)].
Proof.
  intros W api ceiling req s s1 page collPage g b rest w2 collMap
         Hf Hc Hv Hlt Hp Hfetch Hcm Hne Hviews run.
  destruct (first_value_nonempty Hne) as [coll Hcoll].
  assert (Hr : resolveCollection api ceiling (notionToken req) page g s1 =
               (Thrown (TypeError_read "value"),
                entered (afterCall s1
                  (CallFetchPageById (Some b) (notionToken req)) w2))).
  { rewrite resolveCollection_fetch with (b := b) (rest := rest)
      by (auto; lia).
    rewrite Hfetch.
    rewrite attachCollection_table
      with (collMap := collMap) (views := []) (coll := coll)
      by (auto; simpl; lia).
    reflexivity. }
  subst run. rewrite (pageRoute_of_phases api ceiling req s Hf Hr).
  split; [reflexivity|]. split.
  - simpl. lia.
  - simpl. rewrite !calls_app. simpl. rewrite !app_nil_r. reflexivity.
Qed.

Lemma empty_view_map_spends_a_slot_witness :
  let run := pageRoute (apiWithCollection emptyViewsPage) MAX_API_CALLS
                       (request "root") start in
  fst run =
    createResponse
      (ErrorPayload "Cannot read properties of undefined (reading 'value')")
      (Some []) (Some 500) /\
  apiCallCount (snd run) = 4 /\
  calls (events (snd run)) =
    [CallFetchPageById (Some "root") (Some "secret");
     CallFetchBlocks ["child"] (Some "secret");
     CallFetchPageById (Some "cv1") (Some "secret")].
Proof.
  assert (Hf : fetchAndExpand (apiWithCollection emptyViewsPage)
                 MAX_API_CALLS (request "root") (reset start)
               = (Returned (rootPage, expandedBlocks), afterExpansion))
    by (vm_compute; reflexivity).
  assert (Hlt : apiCallCount afterExpansion + 1 < MAX_API_CALLS)
    by (simpl; unfold MAX_API_CALLS; lia).
  assert (Hc : firstOf (rm_collection (recordMap rootPage)) <> None)
    by discriminate.
  assert (Hv : firstOf (rm_collection_view (recordMap rootPage)) <> None)
    by discriminate.
  assert (Hne : [mkCollection "coll1" "Tasks"] <> []) by discriminate.
  exact (@empty_view_map_spends_a_slot
           unit (apiWithCollection emptyViewsPage) MAX_API_CALLS
           (request "root") start afterExpansion rootPage emptyViewsPage
           expandedBlocks "cv1" [] tt [mkCollection "coll1" "Tasks"]
           Hf Hc Hv Hlt eq_refl eq_refl eq_refl Hne eq_refl).
Defined.

Lemma annotate_without_view_ids (W : Type) (g : Graph) (b : string)
    (coll : CollectionType) (views : Obj CollectionView) (table : TableData)
    (s : State W) :
  viewIdsOf g b = None ->
  exists prop,
    In prop ["value"; "view_ids"; "slice"] /\
    annotate g b coll views table s = (Thrown (TypeError_read prop), s).
Proof.
  unfold viewIdsOf, annotate. intros H.
  destruct (lookup g b) as [blk|].
  - destruct (value blk) as [v|].
    + rewrite H. exists "slice". simpl. auto.
    + exists "view_ids". simpl. auto.
  - destruct (inherited b).
    + exists "view_ids". simpl. auto.
    + exists "value". simpl. auto.
Qed.

(** X10.  When the block to annotate offers no [view_ids] (no block is
    stored under the pending id, or the block has no value or no such
    field), the request fails with a [TypeError] and status 500, and it
    does so only after the table data has been fetched: the calls of the
    resolver are the page fetch and the table-data call. *)
Theorem missing_view_ids_fails_after_table_fetch :
  forall (W : Type) (api : Collaborators W) (ceiling : Z)
         (req : HandlerRequest) (s s1 : State W) (page collPage : PageChunk)
         (g : Graph) (b : string) (rest : list string) (w2 w3 : W)
         (collMap : Obj CollectionType) (coll : CollectionType)
         (views : Obj CollectionView) (cv : CollectionView)
         (table : TableData),
    fetchAndExpand api ceiling req (reset s) = (Returned (page, g), s1) ->
    firstOf (rm_collection (recordMap page)) <> None ->
    firstOf (rm_collection_view (recordMap page)) <> None ->
    apiCallCount s1 + 1 < ceiling ->
    pendingCollections g = b :: rest ->
    fetchPageById api (Some b) (notionToken req) (world s1)
      = (Returned collPage, w2) ->
    rm_collection (recordMap collPage) = Some collMap ->
    first_value collMap = Some coll ->
    rm_collection_view (recordMap collPage) = Some views ->
    first_value views = Some cv ->
    getTableData api coll (view_id (view_value cv)) (notionToken req) true w2
      = (Returned table, w3) ->
    viewIdsOf g b = None ->
    let run := pageRoute api ceiling req s in
    (exists prop,
        In prop ["value"; "view_ids"; "slice"] /\
        fst run = createResponse (ErrorPayload (message (TypeError_read prop)))
                                 (Some []) (Some 500)) /\
    calls (events (snd run)) =
      calls (events s1) ++
      [CallFetchPageById (Some b) (notionToken req);
       CallGetTableData coll (view_id (view_value cv)) (notionToken req) true].
Proof.
  intros W api ceiling req s s1 page collPage g b rest w2 w3 collMap coll
         views cv table Hf Hc Hv Hlt Hp Hfetch Hcm Hcoll Hvm Hcv Htable Hno run.
  set (token := notionToken req) in *.
  set (sTable := afterCall (afterCall s1 (CallFetchPageById (Some b) token) w2)
                   (CallGetTableData coll (view_id (view_value cv)) token true)
                   w3).
  destruct (annotate_without_view_ids g b coll views table sTable Hno)
    as (prop & Hin & Hann).
  assert (Hr : resolveCollection api ceiling token page g s1 =
               (Thrown (TypeError_read prop), sTable)).
  { rewrite resolveCollection_fetch with (b := b) (rest := rest)
      by (auto; lia).
    rewrite Hfetch.
    rewrite attachCollection_table
      with (collMap := collMap) (views := views) (coll := coll)
      by (auto; simpl; lia).
    rewrite Hcv. cbv zeta.
    change (world (afterCall s1 (CallFetchPageById (Some b) token) w2)) with w2.
    rewrite Htable. exact Hann. }
  subst run. rewrite (pageRoute_of_phases api ceiling req s Hf Hr).
  split.
  - exists prop. split; [exact Hin|].
    simpl in Hin. destruct Hin as [<-|[<-|[<-|[]]]]; reflexivity.
  - unfold sTable. simpl. rewrite !calls_app. simpl.
    rewrite !app_nil_r, <- !app_assoc. reflexivity.
Qed.

Lemma missing_view_ids_fails_after_table_fetch_witness :
  let run := pageRoute apiPlainView MAX_API_CALLS (request "root") start in
  (exists prop,
      In prop ["value"; "view_ids"; "slice"] /\
      fst run = createResponse (ErrorPayload (message (TypeError_read prop)))
                               (Some []) (Some 500)) /\
  calls (events (snd run)) =
    [CallFetchPageById (Some "root") (Some "secret");
     CallFetchPageById (Some "cv1") (Some "secret");
     CallGetTableData (snd (mkCollection "coll1" "Tasks")) "v1"
                      (Some "secret") true].
Proof.
  set (page := mkChunk plainViewBlocks (Some [mkCollection "coll1" "Tasks"])
                       (Some [mkView "v1"])).
  set (s1 := mkState 1 tt
               [CounterWrite 0; CounterWrite 1;
                Invoked (CallFetchPageById (Some "root") (Some "secret"))]).
  assert (Hf : fetchAndExpand apiPlainView MAX_API_CALLS (request "root")
                 (reset start) = (Returned (page, plainViewBlocks), s1))
    by (vm_compute; reflexivity).
  assert (Hlt : apiCallCount s1 + 1 < MAX_API_CALLS)
    by (simpl; unfold MAX_API_CALLS; lia).
  assert (Hc : firstOf (rm_collection (recordMap page)) <> None)
    by discriminate.
  assert (Hv : firstOf (rm_collection_view (recordMap page)) <> None)
    by discriminate.
  exact (@missing_view_ids_fails_after_table_fetch
           unit apiPlainView MAX_API_CALLS (request "root") start s1 page
           fullCollectionPage plainViewBlocks "cv1" [] tt tt
           [mkCollection "coll1" "Tasks"] (snd (mkCollection "coll1" "Tasks"))
           [mkView "v1"; mkView "v2"] (snd (mkView "v1")) tableAnswer
           Hf Hc Hv Hlt eq_refl eq_refl eq_refl eq_refl eq_refl eq_refl
           eq_refl eq_refl).
Defined.

(* ================================================================== *)
(** ** What the expansion asks for and what it keeps *)

Section Growth.
Variable W : Type.
Variable api : Collaborators W.
Variable ceiling : Z.
Variables (pageId : option string) (token : Token).
Implicit Types (s : State W) (g : Graph).

Lemma spread2_keeps_keys g (newBlocks : Graph) k :
  In k (keys g) -> In k (keys (spread2 g newBlocks)).
Proof.
  intros Hin. apply keys_lookup in Hin as [blk Hl].
  destruct (lookup (spread2 g newBlocks) k) as [x|] eqn:E.
  - eapply lookup_Some_keys; eauto.
  - rewrite lookup_spread2, Hl in E.
    destruct (lookup newBlocks k); discriminate.
Qed.

Lemma spread2_unknown g (newBlocks : Graph) k :
  lookup (spread2 g newBlocks) k = None -> lookup g k = None.
Proof.
  rewrite lookup_spread2. destruct (lookup newBlocks k); [discriminate | auto].
Qed.

Lemma expandLoop_keeps_keys rounds :
  forall iteration g s g' s',
    expandLoop api ceiling pageId token rounds iteration g s
      = (Returned g', s') ->
    forall k, In k (keys g) -> In k (keys g').
Proof.
  induction rounds as [|rounds IH]; intros iteration g s g' s' Hrun k Hk.
  - inversion Hrun. now subst g'.
  - destruct (pendingBlocks pageId g) as [|x l] eqn:Ep.
    + rewrite expandLoop_fixpoint in Hrun by assumption.
      inversion Hrun. now subst g'.
    + assert (Hp : pendingBlocks pageId g <> [])
        by (rewrite Ep; discriminate).
      destruct (Z.le_gt_cases ceiling (apiCallCount s)) as [Hge|Hlt].
      * rewrite expandLoop_exhausted in Hrun by assumption.
        inversion Hrun. now subst g'.
      * rewrite expandLoop_fetch in Hrun by assumption. cbv zeta in Hrun.
        destruct (fetchBlocks api (pendingBlocks pageId g) token (world s))
          as [[res|e] w]; [|discriminate].
        apply (IH _ _ _ _ _ Hrun). now apply spread2_keeps_keys.
Qed.

End Growth.

(** X11.  The answer never loses a block of the root page: when the
    root fetch delivers [page] and the request ends with a graph, every
    key of [page.recordMap.block] is a key of that graph, whatever the
    batch answers and the resolver did. *)
Theorem response_holds_every_root_block :
  forall (W : Type) (api : Collaborators W) (ceiling : Z)
         (req : HandlerRequest) (s : State W) (page : PageChunk) (w : W)
         (allBlocks : Graph),
    0 < ceiling ->
    fetchPageById api (parsePageId api (params_pageId req)) (notionToken req)
                  (world s) = (Returned page, w) ->
    payload (fst (pageRoute api ceiling req s)) = GraphPayload allBlocks ->
    forall k, In k (keys (block (recordMap page))) -> In k (keys allBlocks).
Proof.
  intros W api ceiling req s page w allBlocks Hpos Hfetch Hpay k Hk.
  unfold pageRoute in Hpay. rewrite tryBlock_phases in Hpay.
  rewrite fetchAndExpand_root in Hpay by (simpl; lia). cbv zeta in Hpay.
  change (world (reset s)) with (world s) in Hpay. rewrite Hfetch in Hpay.
  unfold expandBlocks in Hpay.
  match type of Hpay with
  | context [expandLoop ?a ?c ?p ?t ?r ?i ?g ?st] =>
      destruct (expandLoop a c p t r i g st) as [[g1|e] s1] eqn:Eexp
  end; [|discriminate].
  simpl in Hpay.
  destruct (resolveCollection api ceiling (notionToken req) page g1 s1)
    as [[g2|e] s2] eqn:Eres; [|discriminate].
  simpl in Hpay. inversion Hpay. subst g2.
  assert (H1 : In k (keys g1)).
  { apply (expandLoop_keeps_keys _ _ _ _ _ _ _ _ Eexp).
    apply keys_lookup in Hk as [blk Hl].
    apply lookup_Some_keys with (v := blk). now rewrite lookup_spread. }
  apply resolveCollection_returns in Eres.
  destruct Eres as [[-> _] | Hres]; [exact H1|].
  destruct Hres as (b & rest & coll & views & viewId & table & blk & v &
                    viewIds & _ & _ & _ & Hl & _ & _ & ->).
  rewrite keys_set_present; [exact H1|]. unfold has. now rewrite Hl.
Qed.

Lemma response_holds_every_root_block_witness :
  payload (fst (pageRoute (apiWithCollection fullCollectionPage) MAX_API_CALLS
                          (request "root") start))
    = GraphPayload resolvedBlocks /\
  forall k, In k (keys (block (recordMap rootPage))) ->
            In k (keys resolvedBlocks).
Proof.
  assert (Hpos : 0 < MAX_API_CALLS) by (unfold MAX_API_CALLS; lia).
  assert (Hpay :
    payload (fst (pageRoute (apiWithCollection fullCollectionPage)
                            MAX_API_CALLS (request "root") start))
    = GraphPayload resolvedBlocks) by (vm_compute; reflexivity).
  split; [exact Hpay|].
  exact (@response_holds_every_root_block
           unit (apiWithCollection fullCollectionPage) MAX_API_CALLS
           (request "root") start rootPage tt resolvedBlocks
           Hpos eq_refl Hpay).
Defined.

(** X12.  The expansion never asks for a block it already has.  Its
    calls are none, or the batch of the first round, or that batch and,
    after its answer, the batch of the second round; each batch is the
    selection made from the graph as it is at that time.  No id of the
    first batch is a key of the starting graph, and no id of the second
    batch is a key of the starting graph or of the first answer. *)
Theorem expansion_requests_only_unknown_ids :
  forall (W : Type) (api : Collaborators W) (ceiling : Z)
         (pageId : option string) (token : Token) (g : Graph) (s : State W),
    let ids1 := pendingBlocks pageId g in
    exists evs,
      events (snd (expandBlocks api ceiling pageId token g s))
        = events s ++ evs /\
      (forall i, In i ids1 -> lookup g i = None) /\
      (calls evs = [] \/
       calls evs = [CallFetchBlocks ids1 token] \/
       exists res1 w1,
         fetchBlocks api ids1 token (world s) = (Returned res1, w1) /\
         let g1 := spread2 g (block (recordMap res1)) in
         let ids2 := pendingBlocks pageId g1 in
         calls evs = [CallFetchBlocks ids1 token; CallFetchBlocks ids2 token] /\
         forall i, In i ids2 ->
           lookup g i = None /\
           lookup (block (recordMap res1)) i = None /\
           lookup g1 i = None).
Proof.
  intros W api ceiling pageId token g s ids1.
  assert (Hfresh : forall h i, In i (pendingBlocks pageId h) ->
                               lookup h i = None)
    by (intros h i Hi; eapply pending_is_unknown; eauto).
  unfold expandBlocks. change (Z.to_nat (MAX_ITERATIONS - 0)) with 2%nat.
  destruct (pendingBlocks pageId g) as [|x l] eqn:Ep.
  { rewrite expandLoop_fixpoint by assumption.
    exists []. simpl. rewrite app_nil_r.
    split; [reflexivity|]. split; [subst ids1; intros i []|now left]. }
  assert (Hp : pendingBlocks pageId g <> []) by (rewrite Ep; discriminate).
  assert (H1 : forall i, In i ids1 -> lookup g i = None).
  { intros i Hi. apply (Hfresh g). now rewrite Ep. }
  destruct (Z.le_gt_cases ceiling (apiCallCount s)) as [Hge|Hlt].
  { rewrite expandLoop_exhausted by assumption.
    eexists. split; [reflexivity|]. split; [exact H1 | now left]. }
  rewrite expandLoop_fetch by assumption. cbv zeta. rewrite Ep.
  fold ids1.
  destruct (fetchBlocks api ids1 token (world s)) as [[res1|e] w1] eqn:Ef.
  2:{ exists [CounterWrite (apiCallCount s + 1);
              Invoked (CallFetchBlocks ids1 token)].
      split; [simpl; now rewrite <- app_assoc|].
      split; [exact H1 | right; now left]. }
  set (g1 := spread2 g (block (recordMap res1))).
  set (s1 := afterCall s (CallFetchBlocks ids1 token) w1).
  assert (Hone : forall tail,
            calls tail = [] ->
            calls ([CounterWrite (apiCallCount s + 1);
                    Invoked (CallFetchBlocks ids1 token)] ++ tail)
            = [CallFetchBlocks ids1 token])
    by (intros tail Ht; simpl; now rewrite Ht).
  destruct (pendingBlocks pageId g1) as [|y m] eqn:Ep1.
  { rewrite expandLoop_fixpoint by assumption.
    exists ([CounterWrite (apiCallCount s + 1);
             Invoked (CallFetchBlocks ids1 token)] ++ []).
    split; [unfold s1; simpl; now rewrite <- app_assoc|].
    split; [exact H1 | right; left; now apply Hone]. }
  assert (Hp1 : pendingBlocks pageId g1 <> []) by (rewrite Ep1; discriminate).
  destruct (Z.le_gt_cases ceiling (apiCallCount s1)) as [Hge1|Hlt1].
  { rewrite expandLoop_exhausted by assumption.
    eexists ([CounterWrite (apiCallCount s + 1);
              Invoked (CallFetchBlocks ids1 token)] ++ [ConsoleLog _]).
    split; [unfold s1, emit; simpl; rewrite <- !app_assoc; reflexivity|].
    split; [exact H1 | right; left; now apply Hone]. }
  rewrite expandLoop_fetch by assumption. cbv zeta. rewrite Ep1.
  exists ([CounterWrite (apiCallCount s + 1);
           Invoked (CallFetchBlocks ids1 token)] ++
          [CounterWrite (apiCallCount s1 + 1);
           Invoked (CallFetchBlocks (y :: m) token)]).
  split.
  { destruct (fetchBlocks api (y :: m) token (world s1)) as [[res2|e2] w2];
      unfold s1; simpl; rewrite <- !app_assoc; reflexivity. }
  split; [exact H1|]. right. right. exists res1, w1.
  split; [reflexivity|]. cbv zeta. fold g1. rewrite Ep1.
  split; [reflexivity|].
  intros i Hi.
  assert (Hg1 : lookup g1 i = None) by (apply Hfresh; now rewrite Ep1).
  pose proof Hg1 as Hboth. unfold g1 in Hboth. rewrite lookup_spread2 in Hboth.
  destruct (lookup (block (recordMap res1)) i); [discriminate|].
  auto.
Qed.

(** X13.  Merging a batch answer keeps the blocks in place: for a graph
    in enumeration order and an answer whose ids are new to it and are
    not array-index strings, [{ ...allBlocks, ...newBlocks }] is the old
    list of blocks, unchanged and in the same order, followed by the
    blocks of the answer. *)
Theorem merge_appends_new_blocks :
  forall (allBlocks newBlocks : Graph),
    enumerated allBlocks ->
    (forall k, In k (keys newBlocks) ->
               lookup allBlocks k = None /\ array_index k = None) ->
    exists added,
      spread2 allBlocks newBlocks = allBlocks ++ added /\
      (forall k, In k (keys added) <-> In k (keys newBlocks)) /\
      (forall k, In k (keys added) -> lookup added k = lookup newBlocks k).
Proof.
  intros g new Hen Hnew.
  destruct (assign_fresh g new Hnew) as (r & E & Hr).
  assert (Hs : spread2 g new = g ++ r).
  { unfold spread2. unfold enumerated in Hen. now rewrite Hen. }
  assert (Hlook : forall k, In k (keys new) ->
                            lookup r k = lookup new k).
  { intros k Hk. destruct (keys_lookup new k Hk) as [v Hv].
    pose proof (lookup_spread2 g new k) as L.
    rewrite Hs, lookup_app, Hv in L.
    destruct (Hnew k Hk) as [Hg _]. rewrite Hg in L. congruence. }
  exists r. split; [exact Hs|]. split.
  - intros k. split; [apply Hr|].
    intros Hk. destruct (keys_lookup new k Hk) as [v Hv].
    apply lookup_Some_keys with (v := v). now rewrite Hlook.
  - intros k Hk. apply Hlook. now apply Hr.
Qed.

Lemma merge_appends_new_blocks_witness :
  exists added,
    spread2 rootBlocks [mkBlock "child" "text" None None]
      = rootBlocks ++ added /\
    (forall k, In k (keys added) <->
               In k (keys [mkBlock "child" "text" None None])) /\
    (forall k, In k (keys added) ->
               lookup added k = lookup [mkBlock "child" "text" None None] k).
Proof.
  apply merge_appends_new_blocks.
  - reflexivity.
  - intros k [<-|[]]. split; reflexivity.
Defined.

(** X14.  The run that resolves a collection, end to end: with budget
    left, a collection page that holds a collection and a first view, a
    table-data answer, and a block under the pending id that has
    [view_ids], the response is the expanded graph with that block
    annotated; the annotation's [types] is empty when [view_ids] is
    empty, and otherwise has one entry, for the first view id only: the
    view of that id in the collection page, or an undefined entry when
    the page has no such view. *)
Theorem resolved_collection_response :
  forall (W : Type) (api : Collaborators W) (ceiling : Z)
         (req : HandlerRequest) (s s1 : State W) (page collPage : PageChunk)
         (g : Graph) (b : string) (rest : list string) (w2 w3 : W)
         (collMap : Obj CollectionType) (coll : CollectionType)
         (views : Obj CollectionView) (cv : CollectionView)
         (table : TableData) (blk : Block) (v : BlockValue)
         (viewIds : list string),
    fetchAndExpand api ceiling req (reset s) = (Returned (page, g), s1) ->
    firstOf (rm_collection (recordMap page)) <> None ->
    firstOf (rm_collection_view (recordMap page)) <> None ->
    apiCallCount s1 + 1 < ceiling ->
    pendingCollections g = b :: rest ->
    fetchPageById api (Some b) (notionToken req) (world s1)
      = (Returned collPage, w2) ->
    rm_collection (recordMap collPage) = Some collMap ->
    first_value collMap = Some coll ->
    rm_collection_view (recordMap collPage) = Some views ->
    first_value views = Some cv ->
    getTableData api coll (view_id (view_value cv)) (notionToken req) true w2
      = (Returned table, w3) ->
    lookup g b = Some blk -> value blk = Some v ->
    view_ids v = Some viewIds ->
    let ann := {| title := name (collection_value coll);
                  schema := table_schema table;
                  types := typesFor views viewIds;
                  data := rows table |} in
    fst (pageRoute api ceiling req s) =
      createResponse (GraphPayload (set g b (annotated blk ann))) None None /\
    calls (events (snd (pageRoute api ceiling req s))) =
      calls (events s1) ++
      [CallFetchPageById (Some b) (notionToken req);
       CallGetTableData coll (view_id (view_value cv)) (notionToken req) true].
Proof.
  intros W api ceiling req s s1 page collPage g b rest w2 w3 collMap coll
         views cv table blk v viewIds
         Hf Hc Hv Hlt Hp Hfetch Hcm Hcoll Hvm Hcv Htable Hl Hval Hvi ann.
  set (token := notionToken req) in *.
  set (sTable := afterCall (afterCall s1 (CallFetchPageById (Some b) token) w2)
                   (CallGetTableData coll (view_id (view_value cv)) token true)
                   w3).
  assert (Hr : resolveCollection api ceiling token page g s1 =
               (Returned (set g b (annotated blk ann)), sTable)).
  { rewrite resolveCollection_fetch with (b := b) (rest := rest)
      by (auto; lia).
    rewrite Hfetch.
    rewrite attachCollection_table
      with (collMap := collMap) (views := views) (coll := coll)
      by (auto; simpl; lia).
    rewrite Hcv. cbv zeta.
    change (world (afterCall s1 (CallFetchPageById (Some b) token) w2)) with w2.
    rewrite Htable. unfold annotate. rewrite Hl, Hval, Hvi.
    unfold ret, annotated, ann, typesFor. rewrite Hval.
    destruct viewIds as [|i more]; reflexivity. }
  rewrite (pageRoute_of_phases api ceiling req s Hf Hr).
  split; [reflexivity|].
  unfold sTable. simpl. rewrite !calls_app. simpl.
  rewrite !app_nil_r, <- !app_assoc. reflexivity.
Qed.

Lemma resolved_collection_response_witness :
  let run := pageRoute (apiWithCollection fullCollectionPage) MAX_API_CALLS
                       (request "root") start in
  fst run = createResponse (GraphPayload resolvedBlocks) None None /\
  calls (events (snd run)) =
    [CallFetchPageById (Some "root") (Some "secret");
     CallFetchBlocks ["child"] (Some "secret");
     CallFetchPageById (Some "cv1") (Some "secret");
     CallGetTableData (snd (mkCollection "coll1" "Tasks")) "v1"
                      (Some "secret") true].
Proof.
  assert (Hf : fetchAndExpand (apiWithCollection fullCollectionPage)
                 MAX_API_CALLS (request "root") (reset start)
               = (Returned (rootPage, expandedBlocks), afterExpansion))
    by (vm_compute; reflexivity).
  assert (Hlt : apiCallCount afterExpansion + 1 < MAX_API_CALLS)
    by (simpl; unfold MAX_API_CALLS; lia).
  assert (Hc : firstOf (rm_collection (recordMap rootPage)) <> None)
    by discriminate.
  assert (Hv : firstOf (rm_collection_view (recordMap rootPage)) <> None)
    by discriminate.
  exact (@resolved_collection_response
           unit (apiWithCollection fullCollectionPage) MAX_API_CALLS
           (request "root") start afterExpansion rootPage fullCollectionPage
           expandedBlocks "cv1" [] tt tt
           [mkCollection "coll1" "Tasks"] (snd (mkCollection "coll1" "Tasks"))
           [mkView "v1"; mkView "v2"] (snd (mkView "v1")) tableAnswer
           (snd (mkBlock "cv1" "collection_view" None (Some ["v1"; "v2"])))
           _ ["v1"; "v2"]
           Hf Hc Hv Hlt eq_refl eq_refl eq_refl eq_refl eq_refl eq_refl
           eq_refl eq_refl eq_refl eq_refl).
Defined.

(** X15.  A rejected batch fetch fails the whole request: when the
    first round's [fetchBlocks] is rejected, no partial graph is
    returned; the response is the error payload made from that rejection,
    after exactly two calls. *)
Theorem batch_failure_ends_request :
  forall (W : Type) (api : Collaborators W) (ceiling : Z)
         (req : HandlerRequest) (s : State W) (page : PageChunk)
         (e : JsError) (w0 w1 : W),
    let pageId := parsePageId api (params_pageId req) in
    let token := notionToken req in
    let pending := pendingBlocks pageId (spread (block (recordMap page))) in
    1 < ceiling ->
    fetchPageById api pageId token (world s) = (Returned page, w0) ->
    pending <> [] ->
    fetchBlocks api pending token w0 = (Thrown e, w1) ->
    pageRoute api ceiling req s =
      (createResponse (ErrorPayload (errorMessageOf e)) (Some [])
                      (Some (statusOf (errorMessageOf e))),
       mkState 2 w1
         (events s ++ [CounterWrite 0;
                       CounterWrite 1; Invoked (CallFetchPageById pageId token);
                       CounterWrite 2; Invoked (CallFetchBlocks pending token);
                       ConsoleError "Error in pageRoute:" e])).
Proof.
  intros W api ceiling req s page e w0 w1 pageId token pending
         Hceil Hroot Hp Hbatch.
  unfold pageRoute. rewrite tryBlock_phases.
  rewrite fetchAndExpand_root by (simpl; lia). cbv zeta.
  fold pageId. fold token.
  change (world (reset s)) with (world s). rewrite Hroot.
  unfold expandBlocks. change (Z.to_nat (MAX_ITERATIONS - 0)) with 2%nat.
  rewrite expandLoop_fetch by (auto; simpl; lia). cbv zeta.
  fold pending.
  change (world (afterCall (reset s) (CallFetchPageById pageId token) w0))
    with w0.
  rewrite Hbatch. unfold emit, afterCall, reset. simpl.
  rewrite <- !app_assoc. reflexivity.
Qed.

Lemma batch_failure_ends_request_witness :
  pageRoute apiBatchDown MAX_API_CALLS (request "root") start =
    (createResponse (ErrorPayload "Bad gateway") (Some []) (Some 500),
     mkState 2 tt
       [CounterWrite 0;
        CounterWrite 1;
        Invoked (CallFetchPageById (Some "root") (Some "secret"));
        CounterWrite 2;
        Invoked (CallFetchBlocks ["child"] (Some "secret"));
        ConsoleError "Error in pageRoute:" (Error "Bad gateway")]).
Proof.
  assert (Hceil : 1 < MAX_API_CALLS) by (unfold MAX_API_CALLS; lia).
  assert (Hp : pendingBlocks (Some "root")
                 (spread (block (recordMap rootPage))) <> [])
    by discriminate.
  exact (@batch_failure_ends_request unit apiBatchDown MAX_API_CALLS
           (request "root") start rootPage (Error "Bad gateway") tt tt
           Hceil eq_refl Hp eq_refl).
Defined.

(** X16.  A rejected table-data call fails the whole request: the
    expanded graph is not returned, the response is the error payload
    made from the rejection, and the rejected call is the last one. *)
Theorem table_failure_ends_request :
  forall (W : Type) (api : Collaborators W) (ceiling : Z)
         (req : HandlerRequest) (s s1 : State W) (page collPage : PageChunk)
         (g : Graph) (b : string) (rest : list string) (w2 w3 : W)
         (collMap : Obj CollectionType) (coll : CollectionType)
         (views : Obj CollectionView) (cv : CollectionView) (e : JsError),
    fetchAndExpand api ceiling req (reset s) = (Returned (page, g), s1) ->
    firstOf (rm_collection (recordMap page)) <> None ->
    firstOf (rm_collection_view (recordMap page)) <> None ->
    apiCallCount s1 + 1 < ceiling ->
    pendingCollections g = b :: rest ->
    fetchPageById api (Some b) (notionToken req) (world s1)
      = (Returned collPage, w2) ->
    rm_collection (recordMap collPage) = Some collMap ->
    first_value collMap = Some coll ->
    rm_collection_view (recordMap collPage) = Some views ->
    first_value views = Some cv ->
    getTableData api coll (view_id (view_value cv)) (notionToken req) true w2
      = (Thrown e, w3) ->
    fst (pageRoute api ceiling req s) =
      createResponse (ErrorPayload (errorMessageOf e)) (Some [])
                     (Some (statusOf (errorMessageOf e))) /\
    calls (events (snd (pageRoute api ceiling req s))) =
      calls (events s1) ++
      [CallFetchPageById (Some b) (notionToken req);
       CallGetTableData coll (view_id (view_value cv)) (notionToken req) true].
Proof.
  intros W api ceiling req s s1 page collPage g b rest w2 w3 collMap coll
         views cv e Hf Hc Hv Hlt Hp Hfetch Hcm Hcoll Hvm Hcv Htable.
  set (token := notionToken req) in *.
  set (sTable := afterCall (afterCall s1 (CallFetchPageById (Some b) token) w2)
                   (CallGetTableData coll (view_id (view_value cv)) token true)
                   w3).
  assert (Hr : resolveCollection api ceiling token page g s1 =
               (Thrown e, sTable)).
  { rewrite resolveCollection_fetch with (b := b) (rest := rest)
      by (auto; lia).
    rewrite Hfetch.
    rewrite attachCollection_table
      with (collMap := collMap) (views := views) (coll := coll)
      by (auto; simpl; lia).
    rewrite Hcv. cbv zeta.
    change (world (afterCall s1 (CallFetchPageById (Some b) token) w2)) with w2.
    now rewrite Htable. }
  rewrite (pageRoute_of_phases api ceiling req s Hf Hr).
  split; [reflexivity|].
  unfold sTable. simpl. rewrite !calls_app. simpl.
  rewrite !app_nil_r, <- !app_assoc. reflexivity.
Qed.

Lemma table_failure_ends_request_witness :
  let run := pageRoute apiTableDown MAX_API_CALLS (request "root") start in
  fst run = createResponse (ErrorPayload "Too many subrequests.")
                           (Some []) (Some 429) /\
  calls (events (snd run)) =
    [CallFetchPageById (Some "root") (Some "secret");
     CallFetchBlocks ["child"] (Some "secret");
     CallFetchPageById (Some "cv1") (Some "secret");
     CallGetTableData (snd (mkCollection "coll1" "Tasks")) "v1"
                      (Some "secret") true].
Proof.
  assert (Hf : fetchAndExpand apiTableDown MAX_API_CALLS (request "root")
                 (reset start)
               = (Returned (rootPage, expandedBlocks), afterExpansion))
    by (vm_compute; reflexivity).
  assert (Hlt : apiCallCount afterExpansion + 1 < MAX_API_CALLS)
    by (simpl; unfold MAX_API_CALLS; lia).
  assert (Hc : firstOf (rm_collection (recordMap rootPage)) <> None)
    by discriminate.
  assert (Hv : firstOf (rm_collection_view (recordMap rootPage)) <> None)
    by discriminate.
  exact (@table_failure_ends_request
           unit apiTableDown MAX_API_CALLS
           (request "root") start afterExpansion rootPage fullCollectionPage
           expandedBlocks "cv1" [] tt tt
           [mkCollection "coll1" "Tasks"] (snd (mkCollection "coll1" "Tasks"))
           [mkView "v1"; mkView "v2"] (snd (mkView "v1"))
           (Error "Too many subrequests.")
           Hf Hc Hv Hlt eq_refl eq_refl eq_refl eq_refl eq_refl eq_refl
           eq_refl).
Defined.

(* ================================================================== *)
(** ** Requests that overlap *)

Section OverlapFacts.
Variable W : Type.
Variable api : Collaborators W.
Variable ceiling : Z.
Let alone : Call -> State W -> State W := fun _ s => s.

Lemma bind_pointwise A B (c c' : M W A) (k k' : A -> M W B) :
  (forall s, c s = c' s) -> (forall a s, k a s = k' a s) ->
  forall s, bind c k s = bind c' k' s.
Proof.
  intros Hc Hk s. unfold bind. rewrite Hc.
  destruct (c' s) as [[a|e] s1]; auto.
Qed.

Lemma limitedApiCall_pointwise T (f f' : M W T) label :
  (forall s, f s = f' s) ->
  forall s, limitedApiCall ceiling f label s = limitedApiCall ceiling f' label s.
Proof.
  intros Hf s. unfold limitedApiCall.
  apply bind_pointwise; [reflexivity|]. intros n s1.
  destruct (ceiling <=? n); [reflexivity|].
  apply bind_pointwise; [reflexivity | intros _ s2; apply Hf].
Qed.

Lemma invokeAmong_alone A (c : Call) (f : W -> Outcome A * W) s :
  invokeAmong alone c f s = invoke c f s.
Proof. unfold invokeAmong, invoke, alone. now destruct (f (world s)). Qed.

Lemma callFetchBlocksAmong_alone ids token s :
  callFetchBlocksAmong api alone ids token s = callFetchBlocks api ids token s.
Proof.
  unfold callFetchBlocksAmong, callFetchBlocks.
  apply bind_pointwise; [apply invokeAmong_alone | reflexivity].
Qed.

Lemma callGetTableDataAmong_alone coll collView token s :
  callGetTableDataAmong api alone coll collView token s =
  callGetTableData api coll collView token s.
Proof.
  destruct collView as [cv|]; simpl; [apply invokeAmong_alone | reflexivity].
Qed.

Lemma expandLoopAmong_alone pageId token rounds :
  forall iteration g s,
    expandLoopAmong api ceiling alone pageId token rounds iteration g s =
    expandLoop api ceiling pageId token rounds iteration g s.
Proof.
  induction rounds as [|rounds IH]; intros iteration g s; [reflexivity|].
  cbn [expandLoopAmong expandLoop].
  destruct (List.length (pendingBlocks pageId g) =? 0)%nat; [reflexivity|].
  apply bind_pointwise; [reflexivity|]. intros n s1.
  destruct (ceiling <=? n); [reflexivity|].
  apply bind_pointwise.
  - apply limitedApiCall_pointwise. apply callFetchBlocksAmong_alone.
  - intros newBlocks s2. apply IH.
Qed.

Lemma attachCollectionAmong_alone token g b collPage s :
  attachCollectionAmong api ceiling alone token g b collPage s =
  attachCollection api ceiling token g b collPage s.
Proof.
  unfold attachCollectionAmong, attachCollection.
  destruct (rm_collection (recordMap collPage)) as [collMap|]; [|reflexivity].
  destruct (first_value collMap) as [coll|]; [|reflexivity].
  destruct (rm_collection_view (recordMap collPage)) as [views|];
    [|reflexivity].
  apply bind_pointwise; [reflexivity|]. intros n s1.
  destruct (n <? ceiling); [|reflexivity].
  apply bind_pointwise; [|reflexivity].
  apply limitedApiCall_pointwise. apply callGetTableDataAmong_alone.
Qed.

Lemma resolveCollectionAmong_alone token page g s :
  resolveCollectionAmong api ceiling alone token page g s =
  resolveCollection api ceiling token page g s.
Proof.
  unfold resolveCollectionAmong, resolveCollection.
  apply bind_pointwise; [reflexivity|]. intros n s1.
  match goal with |- (if ?c then _ else _) _ = _ => destruct c end;
    [|reflexivity].
  destruct (pendingCollections g) as [|b rest]; [reflexivity|].
  apply bind_pointwise.
  - apply limitedApiCall_pointwise. intros s2. apply invokeAmong_alone.
  - intros collPage s2. apply attachCollectionAmong_alone.
Qed.

(** Without other invocations, the handler with the hook is the handler. *)
Lemma pageRouteAmong_alone req s :
  pageRouteAmong api ceiling alone req s = pageRoute api ceiling req s.
Proof.
  unfold pageRouteAmong, pageRoute.
  assert (H : tryBlockAmong api ceiling alone req s = tryBlock api ceiling req s).
  { unfold tryBlockAmong, tryBlock.
    apply bind_pointwise; [reflexivity|]. intros _ s1.
    apply bind_pointwise.
    - intros s2. unfold fetchAndExpandAmong, fetchAndExpand.
      apply bind_pointwise.
      + apply limitedApiCall_pointwise. intros s3. apply invokeAmong_alone.
      + intros page s3. apply bind_pointwise; [|reflexivity].
        intros s4. apply expandLoopAmong_alone.
    - intros pg s2. apply bind_pointwise; [|reflexivity].
      intros s3. apply resolveCollectionAmong_alone. }
  now rewrite H.
Qed.
End OverlapFacts.


(** C9 (as stated) fails.  The first round asks for "0" and "ghost";
    the answer holds the requested block "0" only, with twenty children.
    The merged graph has no key "ghost", but [Object.keys] lists the
    array index "0" before "root", so the twenty children fill the
    selection of the second round and "ghost" is not asked for again. *)
Lemma omitted_child_not_retried_counterexample :
  let g := spread indexedRoot in
  let answer := indexedAnswer (pendingBlocks (Some "root") g) in
  let g1 := spread2 g answer in
  let run := fetchAndExpand apiIndexed MAX_API_CALLS (request "root")
                            (reset start) in
  pendingBlocks (Some "root") g = ["0"; "ghost"] /\
  keys answer = ["0"] /\
  lookup answer "ghost" = None /\
  lookup g1 "ghost" = None /\
  keys g1 = ["0"; "root"] /\
  pendingBlocks (Some "root") g1 = twentyIds /\
  ~ In "ghost" (pendingBlocks (Some "root") g1) /\
  calls (events (snd run)) =
    [CallFetchPageById (Some "root") (Some "secret");
     CallFetchBlocks ["0"; "ghost"] (Some "secret");
     CallFetchBlocks twentyIds (Some "secret")].
Proof.
  vm_compute. repeat split.
  intros H. repeat (destruct H as [H|H]; [discriminate|]). exact H.
Qed.
